(** * Date Highlighter: a shallow embedding of [main.ts] and its properties

    The plugin scans note text and file names for dates written in one of
    four fixed shapes, classifies each date by its age in whole days and
    turns the class into a colour pair and a relative-time tooltip.

    The embedding follows [main.ts] function by function.  What the plugin
    takes from its host is modelled from the documented behaviour of
    those libraries:
    - JavaScript strings are sequences of code units; here a [string] of
      8-bit code units, offsets being positions in it;
    - the four module-level [RegExp] objects carry a mutable [lastIndex]
      (they have the [g] flag), which [exec] and [String.prototype.match]
      read and write;
    - [moment()] reads the wall clock; every call is a separate read, and
      instants are local wall-clock milliseconds, which is what [diff]
      compares;
    - a parsed date is the [Date] that the host builds for local midnight
      of that day in its time zone, which is a later instant where the
      zone skips midnight;
    - [moment(s, format, true)] is moment's strict parser followed by its
      overflow check;
    - [RangeSetBuilder.add] throws when ranges arrive out of order.

    Effects are explicit: a computation takes the world (the [lastIndex]es
    and the clock) and returns a result or an exception together with the
    world it leaves.  Loops that call [exec] until it fails run on a bound
    that is shown to be never reached. *)

From Stdlib Require Import ZArith List String Ascii Bool Lia Arith.
From Stdlib Require Import DecimalString Permutation.
From Stdlib Require DecimalPos DecimalN.
Import ListNotations.

Local Open Scope string_scope.
Local Open Scope list_scope.
Local Open Scope Z_scope.

(** * The program *)

(** ** Strings as sequences of code units *)

(** [s.slice(n)]: the suffix of [s] from offset [n]. *)
Fixpoint drop (n : nat) (s : string) : string :=
  match n, s with
  | O, _ => s
  | S _, EmptyString => EmptyString
  | S n', String _ s' => drop n' s'
  end.

(** The first [n] code units of [s]. *)
Definition take (n : nat) (s : string) : string := substring 0 n s.

Definition is_digit (c : ascii) : bool :=
  let n := nat_of_ascii c in ((48 <=? n) && (n <=? 57))%nat.

(** ** Regular expressions of the program

    Every pattern of [DATE_FORMATS] is a sequence of [\d{n}] groups and
    literal separators. *)

Inductive Atom : Type :=
| Digits (n : nat)      (* \d{n} *)
| Lit (c : ascii).      (* a literal (escaped where needed) *)

Definition Pattern := list Atom.

Fixpoint match_digits (n : nat) (s : string) : option string :=
  match n with
  | O => Some s
  | S n' =>
      match s with
      | String c s' => if is_digit c then match_digits n' s' else None
      | EmptyString => None
      end
  end.

(** Anchored match of a pattern at the start of [s]: the number of code
    units it consumes. *)
Fixpoint match_here (p : Pattern) (s : string) : option nat :=
  match p with
  | [] => Some O
  | Digits n :: p' =>
      match match_digits n s with
      | Some s' => option_map (Nat.add n) (match_here p' s')
      | None => None
      end
  | Lit c :: p' =>
      match s with
      | String c' s' =>
          if Ascii.eqb c c' then option_map S (match_here p' s') else None
      | EmptyString => None
      end
  end.

(** A match object: [m[0]] and [m.index]. *)
Record RegExpMatch : Type := mkMatch { m0 : string; index : nat }.

(** The matcher's search loop of [RegExpBuiltinExec]: the least offset
    [>= pos] at which the pattern matches [s], [s] being the text from
    [pos] on. *)
Fixpoint search (p : Pattern) (s : string) (pos : nat) : option RegExpMatch :=
  match match_here p s with
  | Some len => Some (mkMatch (take len s) pos)
  | None =>
      match s with
      | EmptyString => None
      | String _ s' => search p s' (S pos)
      end
  end.

(** ** The world the plugin runs in *)

(** The four regular expressions of [DATE_FORMATS] are objects that live
    as long as the module; each has its own [lastIndex]. *)
Inductive Slot : Type := Slot0 | Slot1 | Slot2 | Slot3.

Record LastIndexes : Type := mkLI { li0 : nat; li1 : nat; li2 : nat; li3 : nat }.

Definition get_li (s : Slot) (l : LastIndexes) : nat :=
  match s with
  | Slot0 => li0 l | Slot1 => li1 l | Slot2 => li2 l | Slot3 => li3 l
  end.

Definition set_li (s : Slot) (v : nat) (l : LastIndexes) : LastIndexes :=
  match s with
  | Slot0 => mkLI v (li1 l) (li2 l) (li3 l)
  | Slot1 => mkLI (li0 l) v (li2 l) (li3 l)
  | Slot2 => mkLI (li0 l) (li1 l) v (li3 l)
  | Slot3 => mkLI (li0 l) (li1 l) (li2 l) v
  end.

(** [lastIndex] holds the [lastIndex] of each regular expression;
    [clock n] is what the [n]-th call of [moment()] returns (local
    wall-clock milliseconds since the epoch: the time value plus the UTC
    offset that moment reads for it), [reads] counts the calls made so
    far. *)
Record World : Type := mkWorld {
  lastIndex : LastIndexes;
  reads : nat;
  clock : nat -> Z
}.

Inductive Result (A : Type) : Type :=
| Ok (a : A)
| Throw (msg : string)      (* a JavaScript exception propagates *)
| OutOfFuel.                (* the loop bound of the model was too small *)
Arguments Ok {A} a.
Arguments Throw {A} msg.
Arguments OutOfFuel {A}.

(** Computations that read and write the world and may throw; the world
    keeps the writes made before a throw. *)
Definition M (A : Type) : Type := World -> Result A * World.

Definition ret {A} (a : A) : M A := fun w => (Ok a, w).

Definition bind {A B} (m : M A) (k : A -> M B) : M B :=
  fun w =>
    match m w with
    | (Ok a, w') => k a w'
    | (Throw msg, w') => (Throw msg, w')
    | (OutOfFuel, w') => (OutOfFuel, w')
    end.

Definition throw {A} (msg : string) : M A := fun w => (Throw msg, w).
Definition out_of_fuel {A} : M A := fun w => (OutOfFuel, w).

Declare Scope js_scope.
Delimit Scope js_scope with js.
Notation "x <- m ;; k" := (bind m (fun x => k))
  (at level 61, m at next level, right associativity) : js_scope.
Notation "m ;;; k" := (bind m (fun _ => k))
  (at level 61, right associativity) : js_scope.
Local Open Scope js_scope.

(** [moment()]: one read of the clock. *)
Definition tick (w : World) : World :=
  mkWorld (lastIndex w) (S (reads w)) (clock w).

Definition moment_now : M Z :=
  fun w => (Ok (clock w (reads w)), tick w).

Definition get_lastIndex (s : Slot) : M nat :=
  fun w => (Ok (get_li s (lastIndex w)), w).

Definition set_slot (s : Slot) (v : nat) (w : World) : World :=
  mkWorld (set_li s v (lastIndex w)) (reads w) (clock w).

Definition set_lastIndex (s : Slot) (v : nat) : M unit :=
  fun w => (Ok tt, set_slot s v w).

(** A [RegExp] object with the [g] flag: its pattern and where the world
    keeps its [lastIndex]. *)
Record RegExp : Type := mkRegExp { slot : Slot; source : Pattern }.

(** [regex.exec(text)] for a global regular expression: the search starts
    at [lastIndex]; a match moves [lastIndex] to its end, a failure resets
    it to 0. *)
Definition exec (regex : RegExp) (text : string) : M (option RegExpMatch) :=
  li <- get_lastIndex (slot regex) ;;
  if (String.length text <? li)%nat then
    set_lastIndex (slot regex) 0 ;;; ret None
  else
    match search (source regex) (drop li text) li with
    | None => set_lastIndex (slot regex) 0 ;;; ret None
    | Some m =>
        set_lastIndex (slot regex) (index m + String.length (m0 m)) ;;;
        ret (Some m)
    end.

(** The loop of [RegExp.prototype[Symbol.match]] for a global regular
    expression: [exec] until it fails, collecting [m[0]]; an empty match
    steps [lastIndex] forward by one. *)
Fixpoint match_loop (fuel : nat) (regex : RegExp) (text : string)
    (A : list string) : M (list string) :=
  match fuel with
  | O => out_of_fuel
  | S fuel' =>
      r <- exec regex text ;;
      match r with
      | None => ret A
      | Some m =>
          (if (String.length (m0 m) =? 0)%nat then
             li <- get_lastIndex (slot regex) ;;
             set_lastIndex (slot regex) (S li)
           else ret tt) ;;;
          match_loop fuel' regex text (A ++ [m0 m])
      end
  end.

(** Enough iterations for any loop that calls [exec] on [text] until it
    fails. *)
Definition loop_bound (text : string) : nat := S (S (String.length text)).

(** [text.match(regex)]: [null] when nothing matches, else all matches. *)
Definition String_match (text : string) (regex : RegExp)
  : M (option (list string)) :=
  set_lastIndex (slot regex) 0 ;;;
  A <- match_loop (loop_bound text) regex text [] ;;
  ret (match A with [] => None | _ => Some A end).

(** [for (const x of xs) { ... }] with the local variables the body updates
    passed along. *)
Fixpoint for_of {A B} (xs : list A) (body : A -> B -> M B) (st : B) : M B :=
  match xs with
  | [] => ret st
  | x :: xs' => st' <- body x st ;; for_of xs' body st'
  end.

(** [while ((match = regex.exec(text)) !== null) { ... }] *)
Fixpoint while_exec {B} (fuel : nat) (regex : RegExp) (text : string)
    (body : RegExpMatch -> B -> M B) (st : B) : M B :=
  match fuel with
  | O => out_of_fuel
  | S fuel' =>
      r <- exec regex text ;;
      match r with
      | None => ret st
      | Some m => st' <- body m st ;; while_exec fuel' regex text body st'
      end
  end.

(** ** [DATE_FORMATS], [findDatesInText] *)

Definition DATE_FORMATS : list RegExp :=
  [ mkRegExp Slot0 [Digits 4; Lit "-"; Digits 2; Lit "-"; Digits 2];   (* YYYY-MM-DD *)
    mkRegExp Slot1 [Digits 2; Lit "/"; Digits 2; Lit "/"; Digits 4];   (* MM/DD/YYYY *)
    mkRegExp Slot2 [Digits 2; Lit "-"; Digits 2; Lit "-"; Digits 4];   (* DD-MM-YYYY *)
    mkRegExp Slot3 [Digits 4; Lit "."; Digits 2; Lit "."; Digits 2] ]. (* YYYY.MM.DD *)

(** The body of the loop of [findDatesInText]. *)
Definition push_matches (text : string) (regex : RegExp) (dates : list string)
  : M (list string) :=
  matches <- String_match text regex ;;
  match matches with
  | Some ms => ret (dates ++ ms)
  | None => ret dates
  end.

Definition findDatesInText (text : string) : M (list string) :=
  for_of DATE_FORMATS (push_matches text) [].

(** The world at rest: no regular expression is in the middle of a scan. *)
Definition li_rest : LastIndexes := mkLI 0 0 0 0.
Definition at_rest (w : World) : Prop := lastIndex w = li_rest.

(** The world when the plugin is loaded. *)
Definition world0 (c : nat -> Z) : World := mkWorld li_rest 0 c.

(** ** moment: strict parsing, validity, calendar arithmetic *)

(** The tokens of the format strings of the program; ['YYYY-MM-DD'] is
    [YYYY], ["-"], [MM], ["-"], [DD]. *)
Inductive Token : Type :=
| YYYY | MM | DD
| Sep (c : ascii).

Definition Format := list Token.

(** The array [_a] that parsing fills in: year, month (from 0), day. *)
Record DateArray : Type := mkDateArray { YEAR : Z; MONTH : Z; DATE : Z }.

(** A moment object: the format it was parsed with, the parsed fields and
    what [isValid()] answers. *)
Record Moment : Type := mkMoment { _f : Format; _a : DateArray; isValid : bool }.

Definition digit_value (c : ascii) : Z := Z.of_nat (nat_of_ascii c) - 48.

Fixpoint toInt_acc (s : string) (acc : Z) : Z :=
  match s with
  | EmptyString => acc
  | String c s' => toInt_acc s' (10 * acc + digit_value c)
  end.

(** [toInt] on a string of decimal digits. *)
Definition toInt (s : string) : Z := toInt_acc s 0.

(** Strict parsing consumes the input token by token: in strict mode
    [YYYY] is [\d{4}], [MM] and [DD] are [\d\d], a separator is itself,
    and the parse is exact only when every token matched where the
    previous one ended and nothing is left over ([charsLeftOver = 0], no
    unused token, no unused input). *)
Fixpoint parse_tokens (ts : list Token) (s : string) (a : DateArray)
  : DateArray * bool :=
  match ts with
  | [] => (a, match s with EmptyString => true | _ => false end)
  | YYYY :: ts' =>
      match match_digits 4 s with
      | Some s' => parse_tokens ts' s' (mkDateArray (toInt (take 4 s)) (MONTH a) (DATE a))
      | None => (a, false)
      end
  | MM :: ts' =>
      match match_digits 2 s with
      | Some s' => parse_tokens ts' s' (mkDateArray (YEAR a) (toInt (take 2 s) - 1) (DATE a))
      | None => (a, false)
      end
  | DD :: ts' =>
      match match_digits 2 s with
      | Some s' => parse_tokens ts' s' (mkDateArray (YEAR a) (MONTH a) (toInt (take 2 s)))
      | None => (a, false)
      end
  | Sep c :: ts' =>
      match s with
      | String c' s' => if Ascii.eqb c c' then parse_tokens ts' s' a else (a, false)
      | EmptyString => (a, false)
      end
  end.

Definition isLeapYear (year : Z) : bool :=
  ((year mod 4 =? 0) && negb (year mod 100 =? 0)) || (year mod 400 =? 0).

Definition daysInMonth (year month : Z) : Z :=
  let modMonth := month mod 12 in
  let year := year + (month - modMonth) / 12 in
  if modMonth =? 1 then (if isLeapYear year then 29 else 28)
  else 31 - ((modMonth mod 7) mod 2).

(** [checkOverflow]: the month is 0..11 and the day exists in that month. *)
Definition overflow (a : DateArray) : bool :=
  (MONTH a <? 0) || (MONTH a >? 11) ||
  (DATE a <? 1) || (DATE a >? daysInMonth (YEAR a) (MONTH a)).

(** [moment(input, format, true)] *)
Definition moment (input : string) (format : Format) : Moment :=
  let '(a, exact) := parse_tokens format input (mkDateArray 0 0 1) in
  mkMoment format a (exact && negb (overflow a)).

(** Day number of a civil date (ECMAScript [MakeDay]), days since
    1970-01-01; [month] counts from 0. *)
Definition DayFromYear (y : Z) : Z :=
  365 * (y - 1970) + (y - 1969) / 4 - (y - 1901) / 100 + (y - 1601) / 400.

Definition month_start (month : Z) (leap : bool) : Z :=
  let base := nth (Z.to_nat month) [0; 31; 59; 90; 120; 151; 181; 212; 243; 273; 304; 334] 0 in
  if (2 <=? month) && leap then base + 1 else base.

Definition MakeDay (year month date : Z) : Z :=
  DayFromYear year + month_start month (isLeapYear year) + date - 1.

Definition msPerDay : Z := 86400000.
Definition msPerMinute : Z := 60000.

(** ECMAScript's [Day], [TimeWithinDay], [YearFromTime], [MonthFromTime]
    and [DateFromTime] of a time value. *)
Definition Day (t : Z) : Z := t / msPerDay.
Definition TimeWithinDay (t : Z) : Z := t mod msPerDay.

(** The largest year whose first day is not after [day], looked for
    downwards from [y]. *)
Fixpoint year_from (fuel : nat) (y day : Z) : Z :=
  match fuel with
  | O => y
  | S fuel' => if DayFromYear y <=? day then y else year_from fuel' (y - 1) day
  end.

Definition YearFromTime (t : Z) : Z :=
  let day := Day t in
  year_from (Z.to_nat (Z.abs day / 100000 + 3))
            (1970 + Z.max (day / 365) (day / 366) + 1) day.

Definition DayWithinYear (t : Z) : Z := Day t - DayFromYear (YearFromTime t).

Definition InLeapYear (t : Z) : Z := if isLeapYear (YearFromTime t) then 1 else 0.

Definition MonthFromTime (t : Z) : Z :=
  let d := DayWithinYear t in
  let leap := InLeapYear t in
  if d <? 31 then 0
  else if d <? 59 + leap then 1
  else if d <? 90 + leap then 2
  else if d <? 120 + leap then 3
  else if d <? 151 + leap then 4
  else if d <? 181 + leap then 5
  else if d <? 212 + leap then 6
  else if d <? 243 + leap then 7
  else if d <? 273 + leap then 8
  else if d <? 304 + leap then 9
  else if d <? 334 + leap then 10
  else 11.

Definition DateFromTime (t : Z) : Z :=
  let d := DayWithinYear t in
  let leap := InLeapYear t in
  match MonthFromTime t with
  | 0 => d + 1
  | 1 => d - 30
  | 2 => d - 58 - leap
  | 3 => d - 89 - leap
  | 4 => d - 119 - leap
  | 5 => d - 150 - leap
  | 6 => d - 180 - leap
  | 7 => d - 211 - leap
  | 8 => d - 242 - leap
  | 9 => d - 272 - leap
  | 10 => d - 303 - leap
  | _ => d - 333 - leap
  end.

(** ** The time zone of the host *)

(** ECMAScript's local time zone adjustment: [LocalTZA t true] is the
    offset of local time from UTC, in milliseconds, at the UTC time value
    [t]; [LocalTZA t false] is the offset at the local time value [t],
    which is the offset before the transition when the zone skips or
    repeats [t].  An offset is shorter than a day. *)
Record Zone : Type := mkZone {
  LocalTZA : Z -> bool -> Z;
  LocalTZA_range : forall t isUTC, - msPerDay < LocalTZA t isUTC < msPerDay
}.

(** [LocalTime(t)] and [UTC(t)] *)
Definition LocalTime (tz : Zone) (t : Z) : Z := t + LocalTZA tz t true.
Definition UTC (tz : Zone) (t : Z) : Z := t - LocalTZA tz t false.

(** A zone without transitions, at UTC. *)
Definition Etc_UTC : Zone :=
  mkZone (fun _ _ => 0) (fun _ _ => conj eq_refl eq_refl).

(** America/Santiago around 8 September 2024.  At 04:00 UTC of that day,
    which would be local midnight, the offset goes from -4 h to -3 h: the
    local times from 00:00 to 01:00 of that day do not exist. *)
Definition Santiago_spring_2024 : Z := MakeDay 2024 8 8 * msPerDay + 4 * 3600000.

Definition America_Santiago : Zone :=
  mkZone
    (fun t isUTC =>
       if isUTC
       then (if t <? Santiago_spring_2024 then -4 * 3600000 else -3 * 3600000)
       else (if t <? Santiago_spring_2024 - 3 * 3600000
             then -4 * 3600000 else -3 * 3600000))
    (fun t isUTC =>
       match isUTC with
       | true =>
           match t <? Santiago_spring_2024 as b
             return - msPerDay < (if b then -4 * 3600000 else -3 * 3600000) < msPerDay
           with
           | true => conj eq_refl eq_refl
           | false => conj eq_refl eq_refl
           end
       | false =>
           match t <? Santiago_spring_2024 - 3 * 3600000 as b
             return - msPerDay < (if b then -4 * 3600000 else -3 * 3600000) < msPerDay
           with
           | true => conj eq_refl eq_refl
           | false => conj eq_refl eq_refl
           end
       end).

(** ** moment: the instant of a parsed date, [utcOffset], [diff] *)

(** [createDate(y, m, d)]: the time value of [new Date(y, m, d)], local
    midnight taken to UTC.  The [Date] constructor reads the years 0 to 99
    as 1900 to 1999, so for these moment builds the date 400 years later
    and sets the year back with [setFullYear]. *)
Definition createDate (tz : Zone) (y m d : Z) : Z :=
  if (y <? 100) && (y >=? 0) then
    let t := LocalTime tz (UTC tz (MakeDay (y + 400) m d * msPerDay)) in
    UTC tz (MakeDay y (MonthFromTime t) (DateFromTime t) * msPerDay + TimeWithinDay t)
  else
    UTC tz (MakeDay y m d * msPerDay).

(** [utcOffset()] of a local moment with time value [t], in minutes:
    [-Math.round(_d.getTimezoneOffset())], where [getTimezoneOffset()] is
    [(t - LocalTime(t)) / msPerMinute] and [Math.round(x)] is
    [floor(x + 1/2)]. *)
Definition utcOffset (tz : Zone) (t : Z) : Z :=
  - ((msPerMinute - 2 * LocalTZA tz t true) / (2 * msPerMinute)).

(** The instant of a parsed date in the unit of the clock: the local time
    that moment shows for the [Date] built for local midnight of that day.
    It is local midnight itself unless the zone skips it. *)
Definition valueOf (tz : Zone) (m : Moment) : Z :=
  let t := createDate tz (YEAR (_a m)) (MONTH (_a m)) (DATE (_a m)) in
  t + utcOffset tz t * msPerMinute.

(** [now.diff(date, 'days')]: moment subtracts the two time values and the
    difference of the two UTC offsets, which leaves the difference of the
    local times, divides by the length of a day and truncates towards zero
    ([absFloor]). *)
Definition diff_days (tz : Zone) (now : Z) (date : Moment) : Z :=
  Z.quot (now - valueOf tz date) msPerDay.

(** ** [parseDate] *)

Definition formats : list Format :=
  [ [YYYY; Sep "-"; MM; Sep "-"; DD];      (* 'YYYY-MM-DD' *)
    [MM; Sep "/"; DD; Sep "/"; YYYY];      (* 'MM/DD/YYYY' *)
    [DD; Sep "-"; MM; Sep "-"; YYYY];      (* 'DD-MM-YYYY' *)
    [YYYY; Sep "."; MM; Sep "."; DD] ].    (* 'YYYY.MM.DD' *)

(** [for (const format of formats) { ... if (parsed.isValid()) return parsed } return null] *)
Fixpoint parseDate_loop (fs : list Format) (dateStr : string) : option Moment :=
  match fs with
  | [] => None
  | format :: fs' =>
      let parsed := moment dateStr format in
      if isValid parsed then Some parsed else parseDate_loop fs' dateStr
  end.

Definition parseDate (dateStr : string) : option Moment :=
  parseDate_loop formats dateStr.

(** ** Settings, [generateDateTooltip], [getHighlightColor] *)

Record DateHighlighterSettings : Type := mkSettings {
  highlightInlineContent : bool;
  highlightFilenames : bool;
  recentColor : string;
  intermediateColor : string;
  oldColor : string;
  recentDays : Z;
  intermediateDays : Z;
  textColor : string
}.

Definition DEFAULT_SETTINGS : DateHighlighterSettings :=
  mkSettings true true "#a4e7c3" "#e7dba4" "#e7a4a4" 14 30 "#000000".

(** [`${n}`] for an integer [n >= 0]. *)
Definition number_to_string (n : Z) : string :=
  NilZero.string_of_uint (N.to_uint (Z.to_N n)).

Definition generateDateTooltip (tz : Zone) (dateStr : string) : M string :=
  match parseDate dateStr with
  | None => ret EmptyString
  | Some date =>
      now <- moment_now ;;
      let daysDiff := diff_days tz now date in
      let daysText := Z.abs daysDiff in
      if daysDiff =? 0 then ret "Today"
      else if daysDiff =? 1 then ret "Yesterday"
      else if daysDiff =? -1 then ret "Tomorrow"
      else ret (if daysDiff >? 0
                then (number_to_string daysText ++ " days ago")%string
                else ("In " ++ number_to_string daysText ++ " days")%string)
  end.

Record Colors : Type := mkColors { bg : string; text : string }.

Definition getHighlightColor (tz : Zone) (dateStr : string)
    (settings : DateHighlighterSettings) : M Colors :=
  match parseDate dateStr with
  | None => ret (mkColors (oldColor settings) (textColor settings))
  | Some date =>
      today <- moment_now ;;
      let daysSince := diff_days tz today date in
      if daysSince <=? recentDays settings then
        ret (mkColors (recentColor settings) (textColor settings))
      else if daysSince <=? intermediateDays settings then
        ret (mkColors (intermediateColor settings) (textColor settings))
      else
        ret (mkColors (oldColor settings) (textColor settings))
  end.

(** ** [RangeSetBuilder] and mark decorations *)

(** [Decoration.mark({attributes: {style, title}})] *)
Record Decoration : Type := mkMark { style : string; title : string }.

(** A mark that is not inclusive starts on side [5e8] and ends on side
    [-6e8]. *)
Definition startSide (d : Decoration) : Z := 500000000.
Definition endSide (d : Decoration) : Z := -600000000.

Record Range : Type := mkRange { from : Z; to : Z; value : Decoration }.

(** One layer of a builder: the ranges added so far and the last one's
    position.  A builder is its list of layers, [nextLayer] being the
    tail. *)
Record Layer : Type := mkLayer {
  ranges : list Range;
  last : option Decoration;
  lastFrom : Z;
  lastTo : Z
}.

Definition RangeSetBuilder := list Layer.

Definition new_Layer : Layer := mkLayer [] None (-1000000000) (-1000000000).
Definition new_RangeSetBuilder : RangeSetBuilder := [new_Layer].

(** [a || b] on numbers, where evaluating [b] may fail on [null]. *)
Definition js_or (a : Z) (b : option Z) : option Z :=
  if a =? 0 then b else Some a.

Definition unsorted_msg : string :=
  "Ranges must be added sorted by `from` position and `startSide`".
Definition null_msg : string := "Cannot read properties of null".

Inductive AddInner : Type :=
| Added (l : Layer)       (* returned true, the layer updated *)
| NextLayer               (* returned false *)
| Error (msg : string).   (* threw *)

(** [addInner]: the range goes into this layer, or it overlaps the last
    range and belongs to the next layer, or it is out of order. *)
Definition addInner (l : Layer) (from to : Z) (value : Decoration) : AddInner :=
  match js_or (from - lastTo l)
              (option_map (fun d => startSide value - endSide d) (last l)) with
  | None => Error null_msg
  | Some diff =>
      match (if diff <=? 0
             then js_or (from - lastFrom l)
                        (option_map (fun d => startSide value - startSide d) (last l))
             else Some 0) with
      | None => Error null_msg
      | Some c =>
          if (diff <=? 0) && (c <? 0) then Error unsorted_msg
          else if diff <? 0 then NextLayer
          else Added (mkLayer (ranges l ++ [mkRange from to value])
                              (Some value) from to)
      end
  end.

(** [builder.add(from, to, value)]; a layer that does not exist yet is
    created on demand (a new layer never passes a range on). *)
Fixpoint add (builder : RangeSetBuilder) (from to : Z) (value : Decoration)
  : M RangeSetBuilder :=
  match builder with
  | [] =>
      match addInner new_Layer from to value with
      | Added l => ret [l]
      | Error msg => throw msg
      | NextLayer => throw "Maximum call stack size exceeded"
      end
  | l :: nextLayer =>
      match addInner l from to value with
      | Added l' => ret (l' :: nextLayer)
      | Error msg => throw msg
      | NextLayer => next <- add nextLayer from to value ;; ret (l :: next)
      end
  end.

(** A decoration set: its layers of ranges; [Decoration.none] has none. *)
Definition DecorationSet := list (list Range).
Definition Decoration_none : DecorationSet := [].

Fixpoint finish (builder : RangeSetBuilder) : DecorationSet :=
  match builder with
  | [] => []
  | l :: nextLayer =>
      match ranges l with
      | [] => finish nextLayer
      | rs => rs :: finish nextLayer
      end
  end.

(** ** Content mode: [buildDecorations] *)

Record EditorView : Type := mkView {
  doc : string;
  visibleRanges : list (nat * nat)
}.

Definition sliceString (d : string) (from to : nat) : string :=
  substring from (to - from) d.

(** The body of the [while] loop: one match becomes one mark. *)
Definition add_mark (tz : Zone) (settings : DateHighlighterSettings) (from : nat)
    (m : RegExpMatch) (builder : RangeSetBuilder) : M RangeSetBuilder :=
  let dateStr := m0 m in
  let start := (from + index m)%nat in
  let end_ := (start + String.length dateStr)%nat in
  colors <- getHighlightColor tz dateStr settings ;;
  tooltip <- generateDateTooltip tz dateStr ;;
  add builder (Z.of_nat start) (Z.of_nat end_)
    (mkMark ("background-color: " ++ bg colors ++ "; color: "
               ++ text colors ++ ";")%string
            tooltip).

(** The body of the loop over [view.visibleRanges]. *)
Definition scan_range (tz : Zone) (settings : DateHighlighterSettings) (d : string)
    (range : nat * nat) (builder : RangeSetBuilder) : M RangeSetBuilder :=
  let '(from, to) := range in
  let txt := sliceString d from to in
  for_of DATE_FORMATS
    (fun regex builder =>
       while_exec (loop_bound txt) regex txt (add_mark tz settings from) builder)
    builder.

Definition buildDecorations (tz : Zone) (settings : DateHighlighterSettings)
    (view : EditorView) : M DecorationSet :=
  if negb (highlightInlineContent settings) then ret Decoration_none
  else
    builder <- for_of (visibleRanges view) (scan_range tz settings (doc view))
                 new_RangeSetBuilder ;;
    ret (finish builder).

(** ** File-name mode: [updateFileStyles] *)

Record TFile : Type := mkFile { name : string; path : string }.

Definition LF : string := String (ascii_of_nat 10) EmptyString.
Definition quote : string := String (ascii_of_nat 34) EmptyString.
Fixpoint spaces (n : nat) : string :=
  match n with O => EmptyString | S n' => String " " (spaces n') end.

(** The rule appended for one file. *)
Definition file_rule (safeFileName : string) (colors : Colors) : string :=
  (LF ++ spaces 20 ++ ".nav-file-title[data-path=" ++ quote ++ safeFileName
      ++ quote ++ "] {"
   ++ LF ++ spaces 24 ++ "background-color: " ++ bg colors ++ " !important;"
   ++ LF ++ spaces 24 ++ "color: " ++ text colors ++ " !important;"
   ++ LF ++ spaces 20 ++ "}"
   ++ LF ++ spaces 16)%string.

Section FileStyles.

(** The time zone of the host. *)
Variable tz : Zone.

(** [CSS.escape], provided by the browser. *)
Variable CSS_escape : string -> string.

(** The callback of [files.forEach]: what it appends to [styleContent]. *)
Definition file_style (settings : DateHighlighterSettings) (file : TFile)
    (styleContent : string) : M string :=
  dates <- findDatesInText (name file) ;;
  match dates with
  | dateStr :: _ =>
      colors <- getHighlightColor tz dateStr settings ;;
      let safeFileName := CSS_escape (path file) in
      ret (styleContent ++ file_rule safeFileName colors)%string
  | [] => ret styleContent
  end.

(** [updateFileStyles]: the new [textContent] of the style element, given
    the files of the vault. *)
Definition updateFileStyles (settings : DateHighlighterSettings)
    (files : list TFile) : M string :=
  if negb (highlightFilenames settings) then ret EmptyString
  else
    for_of files (fun file styleContent => file_style settings file styleContent) EmptyString.

End FileStyles.

(** ** The settings tab: [parseInt], [saveSettings] and the two threshold
    fields *)

(** The white space [parseInt] skips, among 8-bit code units: TAB, LF, VT,
    FF, CR, SP, NBSP. *)
Definition is_white_space (c : ascii) : bool :=
  let n := nat_of_ascii c in
  ((n =? 9) || (n =? 10) || (n =? 11) || (n =? 12) || (n =? 13) || (n =? 32)
   || (n =? 160))%nat.

Fixpoint trim_start (s : string) : string :=
  match s with
  | String c s' => if is_white_space c then trim_start s' else s
  | EmptyString => s
  end.

(** The value of a code unit as a digit of the radix, when it is one. *)
Definition digit_in (radix : Z) (c : ascii) : option Z :=
  let n := Z.of_nat (nat_of_ascii c) in
  let v := if (48 <=? n) && (n <=? 57) then Some (n - 48)
           else if (97 <=? n) && (n <=? 122) then Some (n - 87)
           else if (65 <=? n) && (n <=? 90) then Some (n - 55)
           else None in
  match v with
  | Some d => if d <? radix then Some d else None
  | None => None
  end.

(** The value of the longest prefix of digits; [acc] is [None] until a
    digit has been read. *)
Fixpoint parse_digits (radix : Z) (s : string) (acc : option Z) : option Z :=
  match s with
  | String c s' =>
      match digit_in radix c with
      | Some d =>
          parse_digits radix s'
            (Some (radix * match acc with Some a => a | None => 0 end + d))
      | None => acc
      end
  | EmptyString => acc
  end.

(** A number that is [NaN] or an integer.  [parseInt] returns the double
    nearest to the integer it reads; the integer itself is that double for
    inputs of up to 15 code units, and [-0] is not told apart from [0]. *)
Inductive JSNumber : Type := NaN | Num (z : Z).

(** [parseInt(string)], no radix given. *)
Definition parseInt (string_ : string) : JSNumber :=
  let str := trim_start string_ in
  let sign := match str with
              | String c _ => if Ascii.eqb c "-" then -1 else 1
              | EmptyString => 1
              end in
  let str := match str with
             | String c str' => if Ascii.eqb c "-" || Ascii.eqb c "+" then str' else str
             | EmptyString => str
             end in
  let '(R, str) := match str with
                   | String c1 (String c2 str') =>
                       if Ascii.eqb c1 "0" && (Ascii.eqb c2 "x" || Ascii.eqb c2 "X")
                       then (16, str') else (10, str)
                   | _ => (10, str)
                   end in
  match parse_digits R str None with
  | None => NaN
  | Some mathInt => Num (sign * mathInt)
  end.

Definition set_recentDays (v : Z) (s : DateHighlighterSettings)
  : DateHighlighterSettings :=
  mkSettings (highlightInlineContent s) (highlightFilenames s) (recentColor s)
    (intermediateColor s) (oldColor s) v (intermediateDays s) (textColor s).

Definition set_intermediateDays (v : Z) (s : DateHighlighterSettings)
  : DateHighlighterSettings :=
  mkSettings (highlightInlineContent s) (highlightFilenames s) (recentColor s)
    (intermediateColor s) (oldColor s) (recentDays s) v (textColor s).

Section SettingTab.

Variable tz : Zone.
Variable CSS_escape : string -> string.

(** The files of the vault when the settings are saved. *)
Variable files : list TFile.

(** [saveSettings], as far as the plugin itself goes: the style sheet is
    computed anew (the settings are also handed to the host for storage,
    and the open editors are sent an empty transaction). *)
Definition saveSettings (settings : DateHighlighterSettings) : M string :=
  updateFileStyles tz CSS_escape settings files.

(** The change handler of "Recent period (days)": the settings it leaves
    and, when it saved them, the new style sheet. *)
Definition onChange_recentDays (value : string) (settings : DateHighlighterSettings)
  : M (DateHighlighterSettings * option string) :=
  let numValue := parseInt value in
  match numValue with
  | Num n =>
      if n >? 0 then
        let settings := set_recentDays n settings in
        css <- saveSettings settings ;;
        ret (settings, Some css)
      else ret (settings, None)
  | NaN => ret (settings, None)
  end.

(** The change handler of "Intermediate period (days)". *)
Definition onChange_intermediateDays (value : string)
    (settings : DateHighlighterSettings)
  : M (DateHighlighterSettings * option string) :=
  let numValue := parseInt value in
  match numValue with
  | Num n =>
      if n >? recentDays settings then
        let settings := set_intermediateDays n settings in
        css <- saveSettings settings ;;
        ret (settings, Some css)
      else ret (settings, None)
  | NaN => ret (settings, None)
  end.

End SettingTab.

(** ** The later revision: [DateService.findDatesInText] *)

(** [xs.flatMap(f)] *)
Fixpoint flatMap {A B} (xs : list A) (f : A -> M (list B)) : M (list B) :=
  match xs with
  | [] => ret []
  | x :: xs' => ys <- f x ;; more <- flatMap xs' f ;; ret (ys ++ more)
  end.

Module DateService.

(** [DATE_FORMATS.patterns.flatMap(regex => text.match(regex) || [])] *)
Definition findDatesInText (text : string) : M (list string) :=
  flatMap DATE_FORMATS
    (fun regex =>
       matches <- String_match text regex ;;
       ret (match matches with Some ms => ms | None => [] end)).

End DateService.

(** ** The later revision: settings keyed by category, [DateService],
    [generateFileStyles] *)

(** [strings.join('')] *)
Definition join (strings : list string) : string :=
  fold_right append EmptyString strings.

(** [xs.map(f)], the callback called on the elements in order. *)
Fixpoint map_M {A B} (xs : list A) (f : A -> M B) : M (list B) :=
  match xs with
  | [] => ret []
  | x :: xs' => y <- f x ;; ys <- map_M xs' f ;; ret (y :: ys)
  end.

Module Later.

Inductive DateCategory : Type := Recent | Intermediate | Old.

Record Periods : Type := mkPeriods { recent : Z; intermediate : Z }.

Record DateHighlighterSettings : Type := mkSettings {
  highlightInlineContent : bool;
  highlightFilenames : bool;
  colors : DateCategory -> string;    (* an object keyed by the category *)
  periods : Periods;
  textColor : string
}.

Definition DEFAULT_SETTINGS : DateHighlighterSettings :=
  mkSettings true true
    (fun c => match c with
              | Recent => "#a4e7c3"
              | Intermediate => "#e7dba4"
              | Old => "#e7a4a4"
              end)
    (mkPeriods 14 30) "#000000".

(** [DATE_FORMATS.momentFormats] *)
Definition momentFormats : list Format := formats.

Definition parseDate (dateStr : string) : option Moment :=
  parseDate_loop momentFormats dateStr.

Definition generateTooltip (tz : Zone) (dateStr : string) : M string :=
  match parseDate dateStr with
  | None => ret EmptyString
  | Some date =>
      now <- moment_now ;;
      let daysDiff := diff_days tz now date in
      match daysDiff with
      | 0 => ret "Today"
      | 1 => ret "Yesterday"
      | -1 => ret "Tomorrow"
      | _ =>
          let daysText := Z.abs daysDiff in
          ret (if daysDiff >? 0
               then (number_to_string daysText ++ " days ago")%string
               else ("In " ++ number_to_string daysText ++ " days")%string)
      end
  end.

Definition getHighlightColor (tz : Zone) (dateStr : string)
    (settings : DateHighlighterSettings) : M Colors :=
  match parseDate dateStr with
  | None => ret (mkColors (colors settings Old) (textColor settings))
  | Some date =>
      today <- moment_now ;;
      let daysSince := diff_days tz today date in
      if daysSince <=? recent (periods settings) then
        ret (mkColors (colors settings Recent) (textColor settings))
      else if daysSince <=? intermediate (periods settings) then
        ret (mkColors (colors settings Intermediate) (textColor settings))
      else
        ret (mkColors (colors settings Old) (textColor settings))
  end.

(** The rule returned for one file. *)
Definition file_rule (safeFileName : string) (colors : Colors) : string :=
  (LF ++ spaces 10 ++ ".nav-file-title[data-path=" ++ quote ++ safeFileName
      ++ quote ++ "] {"
   ++ LF ++ spaces 12 ++ "background-color: " ++ bg colors ++ " !important;"
   ++ LF ++ spaces 12 ++ "color: " ++ text colors ++ " !important;"
   ++ LF ++ spaces 10 ++ "}"
   ++ LF ++ spaces 8)%string.

Section FileStyles.

Variable tz : Zone.
Variable CSS_escape : string -> string.

(** The callback of [getFiles().map]. *)
Definition file_style (settings : DateHighlighterSettings) (file : TFile) : M string :=
  dates <- DateService.findDatesInText (path file) ;;
  match dates with
  | [] => ret EmptyString
  | dateStr :: _ =>
      colors <- getHighlightColor tz dateStr settings ;;
      let safeFileName := CSS_escape (path file) in
      ret (file_rule safeFileName colors)
  end.

Definition generateFileStyles (settings : DateHighlighterSettings)
    (files : list TFile) : M string :=
  rules <- map_M files (file_style settings) ;;
  ret (join rules).

Definition updateFileStyles (settings : DateHighlighterSettings)
    (files : list TFile) : M string :=
  if negb (highlightFilenames settings) then ret EmptyString
  else generateFileStyles settings files.

End FileStyles.

End Later.

(** * Notions used to state the properties *)

(** ** Matches in a text *)

(** The number of code units a pattern consumes. *)
Fixpoint pattern_len (p : Pattern) : nat :=
  match p with
  | [] => O
  | Digits n :: p' => (n + pattern_len p')%nat
  | Lit _ :: p' => S (pattern_len p')
  end.

(** The pattern matches [text] at offset [j]. *)
Definition matches_at (p : Pattern) (text : string) (j : nat) : Prop :=
  (j <= String.length text)%nat /\ match_here p (drop j text) <> None.

(** What one [exec] finds when [lastIndex] is [pos]. *)
Definition next_match (p : Pattern) (text : string) (pos : nat) : option RegExpMatch :=
  if (String.length text <? pos)%nat then None
  else search p (drop pos text) pos.

(** The matches a loop of [exec] goes through when it starts with
    [lastIndex = pos]. *)
Fixpoint scan (fuel : nat) (p : Pattern) (text : string) (pos : nat)
  : list RegExpMatch :=
  match fuel with
  | O => []
  | S fuel' =>
      match next_match p text pos with
      | None => []
      | Some m => m :: scan fuel' p text (index m + String.length (m0 m))
      end
  end.

(** All matches of a pattern in a text, as [text.match] and a full [exec]
    loop report them. *)
Definition all_matches (p : Pattern) (text : string) : list RegExpMatch :=
  scan (loop_bound text) p text 0.

(** The non-overlapping matches of [p] in [text] from offset [pos] on, in
    left-to-right order: each is the leftmost match at or after the end of
    the one before. *)
Inductive Scan (p : Pattern) (text : string) : nat -> list RegExpMatch -> Prop :=
| Scan_nil pos :
    (forall j, (pos <= j)%nat -> ~ matches_at p text j) ->
    Scan p text pos []
| Scan_cons pos j ms :
    (pos <= j)%nat ->
    matches_at p text j ->
    (forall k, (pos <= k < j)%nat -> ~ matches_at p text k) ->
    Scan p text (j + pattern_len p) ms ->
    Scan p text pos (mkMatch (substring j (pattern_len p) text) j :: ms).

(** The regular expressions at rest, whatever they were before. *)
Definition rest (w : World) : World := mkWorld li_rest (reads w) (clock w).

(** The strings [findDatesInText] returns: each pattern's matches, pattern
    after pattern. *)
Definition found_dates (text : string) : list string :=
  flat_map (fun regex => map m0 (all_matches (source regex) text)) DATE_FORMATS.

(** The regular expression that has the shape of a format. *)
Definition atom_of (t : Token) : Atom :=
  match t with
  | YYYY => Digits 4
  | MM | DD => Digits 2
  | Sep c => Lit c
  end.

(** ** Categories and labels, as the classification is described *)

Inductive Category : Type := Recent | Intermediate | Old.

(** Inclusive boundaries, the recent one first. *)
Definition category_of (daysSince : Z) (settings : DateHighlighterSettings)
  : Category :=
  if daysSince <=? recentDays settings then Recent
  else if daysSince <=? intermediateDays settings then Intermediate
  else Old.

Definition color_pair (settings : DateHighlighterSettings) (c : Category) : Colors :=
  mkColors match c with
           | Recent => recentColor settings
           | Intermediate => intermediateColor settings
           | Old => oldColor settings
           end
           (textColor settings).

Definition relative_label (daysSince : Z) : string :=
  if daysSince =? 0 then "Today"
  else if daysSince =? 1 then "Yesterday"
  else if daysSince =? -1 then "Tomorrow"
  else if 0 <? daysSince then (number_to_string daysSince ++ " days ago")%string
  else ("In " ++ number_to_string (- daysSince) ++ " days")%string.

(** What the next call of [moment()] returns. *)
Definition now (w : World) : Z := clock w (reads w).

(** The first instant of a calendar day, in the clock's unit; [month]
    counts from 1 here. *)
Definition midnight (year month day : Z) : Z :=
  MakeDay year (month - 1) day * msPerDay.

(** ** Properties of computations *)

(** The computation leaves every [lastIndex] as it found it. *)
Definition keeps_lastIndex {A} (m : M A) : Prop :=
  forall w, lastIndex (snd (m w)) = lastIndex w.

(** The loop bounds of the model are never reached. *)
Definition terminates {A} (m : M A) : Prop :=
  forall w, fst (m w) <> OutOfFuel.

(** Two worlds that agree on every [lastIndex] and whose clocks show
    [now_] at every read. *)
Definition same_view (now_ : Z) (w1 w2 : World) : Prop :=
  lastIndex w1 = lastIndex w2 /\
  (forall n, clock w1 n = now_) /\ (forall n, clock w2 n = now_).

(** The outcome depends on the world only through the [lastIndex]es and
    the instant [now_] the clock shows. *)
Definition stable (now_ : Z) {A} (m : M A) : Prop :=
  forall w1 w2, same_view now_ w1 w2 ->
    fst (m w1) = fst (m w2) /\ same_view now_ (snd (m w1)) (snd (m w2)).

(** A clock that passes midnight between its first and its second read:
    2024-04-12 23:59:59.999, then 2024-04-13 00:00:00.000. *)
Definition clock_over_midnight (n : nat) : Z :=
  match n with
  | O => midnight 2024 4 13 - 1
  | S _ => midnight 2024 4 13
  end.

(** ** Which date a file name is coloured by *)





(** ** The order in which a pass adds its marks *)

(** The start offsets of the marks of one visible range, in the order in
    which [buildDecorations] adds them: pattern after pattern, each
    pattern's matches from left to right, moved by the start of the
    range. *)
Definition range_starts (d : string) (range : nat * nat) : list nat :=
  let '(from, to) := range in
  flat_map (fun regex =>
              map (fun m => (from + index m)%nat)
                  (all_matches (source regex) (sliceString d from to)))
           DATE_FORMATS.

Definition pass_starts (view : EditorView) : list nat :=
  flat_map (range_starts (doc view)) (visibleRanges view).

Fixpoint nondecreasing (l : list nat) : bool :=
  match l with
  | a :: (b :: _) as t => (a <=? b)%nat && nondecreasing t
  | _ => true
  end.

(** [F], then the starts, never step down. *)
Fixpoint chain (F : Z) (starts : list Z) : bool :=
  match starts with
  | [] => true
  | s :: starts' => (F <=? s) && chain s starts'
  end.

(** A layer as [add] leaves it when every mark is ten code units long:
    untouched, or ending ten after the start of its last range. *)
Definition wf_layer (l : Layer) : Prop :=
  (last l = None /\ lastFrom l = -1000000000 /\ lastTo l = -1000000000) \/
  (last l <> None /\ 0 <= lastFrom l /\ lastTo l = lastFrom l + 10).

(** The builder after a range starting at [F] went into one of its layers:
    the layers before that one all reach beyond [F], and no layer's last
    range starts after [F]. *)
Definition Inv (b : RangeSetBuilder) (F : Z) : Prop :=
  exists pre l post,
    b = pre ++ l :: post /\ wf_layer l /\ lastFrom l = F /\
    (forall x, In x pre -> wf_layer x /\ lastFrom x <= F < lastTo x) /\
    (forall x, In x post -> wf_layer x /\ lastFrom x <= F).

(** The spans of all ranges of a builder, layer after layer. *)
Definition spans (b : RangeSetBuilder) : list (Z * Z) :=
  map (fun r => (from r, to r)) (flat_map ranges b).

Definition span_of_start (s : Z) : Z * Z := (s, s + 10).

(** A loop of [exec] seen as a loop over the matches it will find. *)
Fixpoint run_matches {B} (body : RegExpMatch -> B -> M B) (s : Slot)
    (ms : list RegExpMatch) (st : B) : M B :=
  fun w =>
    match ms with
    | [] => (Ok st, set_slot s 0 w)
    | m :: ms' =>
        match body m st (set_slot s (index m + String.length (m0 m)) w) with
        | (Ok st', w') => run_matches body s ms' st' w'
        | (Throw msg, w') => (Throw msg, w')
        | (OutOfFuel, w') => (OutOfFuel, w')
        end
    end.

(** What adding marks at the starts [ss] to the builder [b] comes to, [F]
    being the start of the range added last: all are taken when the starts
    never step down, and the first step down is refused. *)
Definition adds (ss : list nat) (b : RangeSetBuilder) (F : Z)
    (r : Result RangeSetBuilder) : Prop :=
  if chain F (map Z.of_nat ss)
  then exists b', r = Ok b' /\ Inv b' (List.last (map Z.of_nat ss) F) /\
                  Permutation (spans b')
                    (spans b ++ map span_of_start (map Z.of_nat ss))
  else r = Throw unsorted_msg.

(** How old a category is. *)
Definition rank (c : Category) : nat :=
  match c with Recent => 0 | Intermediate => 1 | Old => 2 end.

(** ** The style sheet, file by file *)

(** The rule of one file when the clock shows [now_]: none for a name
    without a date. *)
Definition file_rule_at (tz : Zone) (CSS_escape : string -> string)
    (settings : DateHighlighterSettings) (now_ : Z) (file : TFile) : string :=
  match found_dates (name file) with
  | [] => EmptyString
  | dateStr :: _ =>
      file_rule (CSS_escape (path file))
        (color_pair settings
           match parseDate dateStr with
           | None => Old
           | Some date => category_of (diff_days tz now_ date) settings
           end)
  end.

(** ** The two revisions side by side *)

(** The settings of the first revision that say the same as settings of
    the later one. *)
Definition first_settings (s : Later.DateHighlighterSettings) : DateHighlighterSettings :=
  mkSettings (Later.highlightInlineContent s) (Later.highlightFilenames s)
    (Later.colors s Later.Recent) (Later.colors s Later.Intermediate)
    (Later.colors s Later.Old)
    (Later.recent (Later.periods s)) (Later.intermediate (Later.periods s))
    (Later.textColor s).

(** ** Decimal numerals *)

(** The number a decimal numeral denotes, read from the left. *)
Fixpoint uint_val (d : Decimal.uint) (acc : Z) : Z :=
  match d with
  | Decimal.Nil => acc
  | Decimal.D0 d' => uint_val d' (10 * acc + 0)
  | Decimal.D1 d' => uint_val d' (10 * acc + 1)
  | Decimal.D2 d' => uint_val d' (10 * acc + 2)
  | Decimal.D3 d' => uint_val d' (10 * acc + 3)
  | Decimal.D4 d' => uint_val d' (10 * acc + 4)
  | Decimal.D5 d' => uint_val d' (10 * acc + 5)
  | Decimal.D6 d' => uint_val d' (10 * acc + 6)
  | Decimal.D7 d' => uint_val d' (10 * acc + 7)
  | Decimal.D8 d' => uint_val d' (10 * acc + 8)
  | Decimal.D9 d' => uint_val d' (10 * acc + 9)
  end.

Definition starts_with_digit (s : string) : bool :=
  match s with
  | String c _ => is_digit c
  | EmptyString => false
  end.

Definition all_digits (s : string) : bool :=
  forallb is_digit (list_ascii_of_string s).

(** * Properties *)

(** ** Strings *)

Lemma drop_nil n : drop n EmptyString = EmptyString.
Proof. destruct n; reflexivity. Qed.

Lemma drop_length n s : String.length (drop n s) = (String.length s - n)%nat.
Proof.
  revert s; induction n as [|n IH]; intros s; simpl.
  - lia.
  - destruct s; simpl; auto.
Qed.

Lemma drop_drop n k s : drop k (drop n s) = drop (n + k) s.
Proof.
  revert s; induction n as [|n IH]; intros s; simpl; auto.
  destruct s; simpl; auto using drop_nil.
Qed.

Lemma drop_S n s c s' : drop n s = String c s' -> drop (S n) s = s'.
Proof.
  revert s; induction n as [|n IH]; intros s H; simpl in *.
  - subst; reflexivity.
  - destruct s; [discriminate|]. apply IH in H. exact H.
Qed.

Lemma take_drop_substring n len s : take len (drop n s) = substring n len s.
Proof.
  unfold take. revert s; induction n as [|n IH]; intros s; simpl; auto.
  destruct s; simpl; auto.
  destruct len; reflexivity.
Qed.

Lemma take_length len s :
  (len <= String.length s)%nat -> String.length (take len s) = len.
Proof.
  unfold take. revert s; induction len as [|len IH]; intros s H.
  - destruct s; reflexivity.
  - destruct s; simpl in *; [lia|]. rewrite IH; lia.
Qed.

Lemma take_all s : take (String.length s) s = s.
Proof.
  unfold take. induction s as [|c s IH]; simpl; [reflexivity|].
  now rewrite IH.
Qed.

(** ** The matcher *)

Lemma match_digits_length n s s' :
  match_digits n s = Some s' -> String.length s = (n + String.length s')%nat.
Proof.
  revert s; induction n as [|n IH]; intros s H; simpl in *.
  - now inversion H.
  - destruct s as [|c s]; [discriminate|].
    destruct (is_digit c); [|discriminate].
    simpl. now rewrite (IH _ H).
Qed.

Lemma match_here_len p s len :
  match_here p s = Some len ->
  len = pattern_len p /\ (pattern_len p <= String.length s)%nat.
Proof.
  revert s len; induction p as [|a p IH]; intros s len H; simpl in *.
  - inversion H; lia.
  - destruct a as [n|c].
    + destruct (match_digits n s) as [s'|] eqn:E; [|discriminate].
      destruct (match_here p s') as [l|] eqn:E'; [|discriminate].
      apply IH in E'. apply match_digits_length in E.
      inversion H; lia.
    + destruct s as [|c' s]; [discriminate|].
      destruct (Ascii.eqb c c'); [|discriminate].
      destruct (match_here p s) as [l|] eqn:E'; [|discriminate].
      apply IH in E'. inversion H; simpl; lia.
Qed.

Lemma search_None p s pos :
  search p s pos = None ->
  forall k, (k <= String.length s)%nat -> match_here p (drop k s) = None.
Proof.
  revert pos; induction s as [|c s IH]; intros pos H k Hk; simpl in H.
  - destruct (match_here p EmptyString) eqn:E; [discriminate|].
    now rewrite drop_nil.
  - destruct (match_here p (String c s)) eqn:E; [discriminate|].
    destruct k as [|k]; simpl; [exact E|].
    apply (IH _ H). simpl in Hk; lia.
Qed.

Lemma search_Some p s pos m :
  search p s pos = Some m ->
  exists k, index m = (pos + k)%nat /\ (k <= String.length s)%nat /\
            match_here p (drop k s) = Some (pattern_len p) /\
            m0 m = take (pattern_len p) (drop k s) /\
            forall k', (k' < k)%nat -> match_here p (drop k' s) = None.
Proof.
  revert pos; induction s as [|c s IH]; intros pos H; simpl in H.
  - destruct (match_here p EmptyString) as [len|] eqn:E; [|discriminate].
    destruct (match_here_len _ _ _ E) as [-> _].
    inversion H; subst; clear H.
    exists O; simpl; repeat split; auto; try lia.
  - destruct (match_here p (String c s)) as [len|] eqn:E.
    + destruct (match_here_len _ _ _ E) as [-> _].
      inversion H; subst; clear H.
      exists O; simpl; repeat split; auto; try lia.
    + destruct (IH _ H) as (k & Hi & Hk & Hm & H0 & Hlt).
      exists (S k); simpl; repeat split; auto; try lia.
      intros [|k'] Hk'; simpl; [exact E|]. apply Hlt; lia.
Qed.

Lemma next_match_None p text pos :
  next_match p text pos = None ->
  forall j, (pos <= j)%nat -> ~ matches_at p text j.
Proof.
  unfold next_match, matches_at. intros H j Hj [Hle Hm].
  destruct (Nat.ltb_spec (String.length text) pos) as [Hlt|Hge]; [lia|].
  apply Hm. replace j with (pos + (j - pos))%nat by lia.
  rewrite <- drop_drop. apply (search_None _ _ _ H).
  rewrite drop_length; lia.
Qed.

Lemma next_match_Some p text pos m :
  next_match p text pos = Some m ->
  (pos <= index m)%nat /\ matches_at p text (index m) /\
  (index m + pattern_len p <= String.length text)%nat /\
  m0 m = substring (index m) (pattern_len p) text /\
  String.length (m0 m) = pattern_len p /\
  forall k, (pos <= k < index m)%nat -> ~ matches_at p text k.
Proof.
  unfold next_match, matches_at. intros H.
  destruct (Nat.ltb_spec (String.length text) pos) as [Hlt|Hge]; [discriminate|].
  destruct (search_Some _ _ _ _ H) as (k & Hi & Hk & Hm & H0 & Hlt).
  rewrite drop_length in Hk. rewrite drop_drop in Hm, H0.
  rewrite <- Hi in Hm, H0.
  destruct (match_here_len _ _ _ Hm) as [_ Hlen]. rewrite drop_length in Hlen.
  repeat split; try lia.
  - congruence.
  - rewrite H0. apply take_drop_substring.
  - rewrite H0. apply take_length. rewrite drop_length. lia.
  - intros k' Hk' [_ Hm']. apply Hm'.
    replace k' with (pos + (k' - pos))%nat by lia.
    rewrite <- drop_drop. apply Hlt. lia.
Qed.

(** ** One scan of a text by one regular expression *)

Lemma get_set_same s v l : get_li s (set_li s v l) = v.
Proof. destruct s; reflexivity. Qed.

Lemma get_set_other s s' v l : s <> s' -> get_li s (set_li s' v l) = get_li s l.
Proof. destruct s, s'; simpl; congruence. Qed.

Lemma set_set s v v' l : set_li s v (set_li s v' l) = set_li s v l.
Proof. destruct s; reflexivity. Qed.

Lemma set_slot_set_slot s v v' w : set_slot s v (set_slot s v' w) = set_slot s v w.
Proof. unfold set_slot; simpl. now rewrite set_set. Qed.

Lemma lastIndex_set_slot s v w : lastIndex (set_slot s v w) = set_li s v (lastIndex w).
Proof. reflexivity. Qed.

Lemma exec_run regex text w :
  exec regex text w =
  match next_match (source regex) text (get_li (slot regex) (lastIndex w)) with
  | None => (Ok None, set_slot (slot regex) 0 w)
  | Some m =>
      (Ok (Some m), set_slot (slot regex) (index m + String.length (m0 m)) w)
  end.
Proof.
  unfold exec, bind, get_lastIndex, set_lastIndex, next_match, ret; simpl.
  destruct (String.length text <? _)%nat; [reflexivity|].
  destruct (search _ _ _); reflexivity.
Qed.

Lemma scan_Scan p text fuel pos :
  (0 < pattern_len p)%nat ->
  (S (String.length text) - pos < fuel)%nat ->
  Scan p text pos (scan fuel p text pos).
Proof.
  intros Hp. revert pos; induction fuel as [|fuel IH]; intros pos Hf; [lia|].
  simpl. destruct (next_match p text pos) as [m|] eqn:E.
  - destruct (next_match_Some _ _ _ _ E) as (Hge & Hat & Hle & H0 & Hl & Hlt).
    destruct m as [s j]; cbn [index m0] in *. subst s.
    apply Scan_cons; auto.
    rewrite Hl. apply IH. lia.
  - apply Scan_nil. now apply next_match_None.
Qed.

Lemma Scan_functional p text pos ms ms' :
  Scan p text pos ms -> Scan p text pos ms' -> ms = ms'.
Proof.
  intros H; revert ms'; induction H as [pos Hn|pos j ms Hj Hat Hlt Hs IH];
    intros ms' H'; inversion H' as [pos' Hn'|pos' j' ms'' Hj' Hat' Hlt' Hs']; subst.
  - reflexivity.
  - exfalso. now apply (Hn j').
  - exfalso. now apply (Hn' j).
  - assert (j = j') as <-.
    { destruct (Nat.lt_trichotomy j j') as [Hc|[Hc|Hc]]; [exfalso|assumption|exfalso].
      - apply (Hlt' j); auto.
      - apply (Hlt j'); auto. }
    f_equal. now apply IH.
Qed.

Lemma all_matches_Scan p text :
  (0 < pattern_len p)%nat -> Scan p text 0 (all_matches p text).
Proof. intros Hp. apply scan_Scan; [assumption | unfold loop_bound; lia]. Qed.

(** More fuel than the loop needs does not change what it finds. *)
Lemma scan_fuel p text fuel fuel' pos :
  (0 < pattern_len p)%nat ->
  (S (String.length text) - pos < fuel)%nat ->
  (S (String.length text) - pos < fuel')%nat ->
  scan fuel p text pos = scan fuel' p text pos.
Proof.
  intros Hp H1 H2.
  apply (Scan_functional p text pos); now apply scan_Scan.
Qed.

Lemma match_loop_run fuel regex text A w :
  (0 < pattern_len (source regex))%nat ->
  (S (String.length text) - get_li (slot regex) (lastIndex w) < fuel)%nat ->
  match_loop fuel regex text A w =
  (Ok (A ++ map m0 (scan fuel (source regex) text (get_li (slot regex) (lastIndex w)))),
   set_slot (slot regex) 0 w).
Proof.
  intros Hp. revert A w; induction fuel as [|fuel IH]; intros A w Hf; [lia|].
  simpl. unfold bind at 1. rewrite exec_run.
  destruct (next_match _ _ _) as [m|] eqn:E.
  - destruct (next_match_Some _ _ _ _ E) as (Hge & Hat & Hle & H0 & Hl & Hlt).
    destruct (Nat.eqb_spec (String.length (m0 m)) 0) as [Hz|Hz]; [lia|].
    unfold bind at 1, ret at 1.
    rewrite IH; rewrite lastIndex_set_slot, get_set_same.
    + rewrite set_slot_set_slot, <- app_assoc. reflexivity.
    + lia.
  - unfold ret. now rewrite app_nil_r.
Qed.

Lemma String_match_run text regex w :
  (0 < pattern_len (source regex))%nat ->
  String_match text regex w =
  (Ok (match map m0 (all_matches (source regex) text) with
       | [] => None
       | ms => Some ms
       end),
   set_slot (slot regex) 0 w).
Proof.
  intros Hp. unfold String_match, bind at 1, set_lastIndex.
  unfold bind. rewrite match_loop_run; auto.
  - rewrite lastIndex_set_slot, get_set_same, set_slot_set_slot.
    unfold all_matches, ret. cbn [app].
    destruct (map m0 _); reflexivity.
  - rewrite lastIndex_set_slot, get_set_same. unfold loop_bound. lia.
Qed.

Lemma DATE_FORMATS_nonempty regex :
  In regex DATE_FORMATS -> pattern_len (source regex) = 10%nat.
Proof.
  simpl. intros [<-|[<-|[<-|[<-|[]]]]]; reflexivity.
Qed.

Lemma push_matches_run text regex dates w :
  (0 < pattern_len (source regex))%nat ->
  push_matches text regex dates w =
  (Ok (dates ++ map m0 (all_matches (source regex) text)),
   set_slot (slot regex) 0 w).
Proof.
  intros Hp. unfold push_matches, bind. rewrite String_match_run by assumption.
  destruct (map m0 _); unfold ret; [now rewrite app_nil_r | reflexivity].
Qed.

Lemma findDatesInText_run text w :
  findDatesInText text w = (Ok (found_dates text), rest w).
Proof.
  unfold findDatesInText, found_dates, DATE_FORMATS. cbn [for_of flat_map].
  unfold bind.
  repeat (rewrite push_matches_run by (simpl; lia); cbn [source slot]).
  cbn [app]. rewrite app_nil_r, <- !app_assoc. reflexivity.
Qed.

(** ** A text that is one date and nothing else *)

Lemma search_short p s pos :
  (String.length s < pattern_len p)%nat -> search p s pos = None.
Proof.
  revert pos; induction s as [|c s IH]; intros pos H; simpl.
  - destruct (match_here p EmptyString) eqn:E; [|reflexivity].
    apply match_here_len in E. simpl in *. lia.
  - destruct (match_here p (String c s)) eqn:E.
    + apply match_here_len in E. lia.
    + apply IH. simpl in H. lia.
Qed.

Lemma search_exact p s pos :
  (0 < pattern_len p)%nat -> String.length s = pattern_len p ->
  search p s pos =
  match match_here p s with Some _ => Some (mkMatch s pos) | None => None end.
Proof.
  intros Hp Hl. destruct s as [|c s]; simpl in Hl; [lia|].
  cbn [search].
  destruct (match_here p (String c s)) as [len|] eqn:E.
  - apply match_here_len in E. destruct E as [-> _].
    rewrite <- Hl. change (S (String.length s)) with (String.length (String c s)).
    now rewrite take_all.
  - apply search_short. lia.
Qed.

Lemma all_matches_exact p s :
  (0 < pattern_len p)%nat -> String.length s = pattern_len p ->
  all_matches p s =
  match match_here p s with Some _ => [mkMatch s 0] | None => [] end.
Proof.
  intros Hp Hl. unfold all_matches, loop_bound. cbn [scan].
  unfold next_match at 1. replace (String.length s <? 0)%nat with false by reflexivity.
  cbn [drop]. rewrite search_exact by assumption.
  destruct (match_here p s); [|reflexivity].
  cbn [index m0]. f_equal.
  unfold next_match. destruct (Nat.ltb_spec (String.length s) (0 + String.length s)); [lia|].
  rewrite search_short; [reflexivity|]. rewrite drop_length. lia.
Qed.

Lemma formats_DATE_FORMATS :
  map (map atom_of) formats = map source DATE_FORMATS.
Proof. reflexivity. Qed.

(** A strict parse that is exact is a whole-string match of the
    corresponding regular expression. *)
Lemma parse_tokens_match ts s a a' :
  parse_tokens ts s a = (a', true) ->
  match_here (map atom_of ts) s = Some (String.length s).
Proof.
  revert s a; induction ts as [|t ts IH]; intros s a H.
  - simpl in *. destruct s; [reflexivity|]. inversion H.
  - destruct t; cbn [parse_tokens map atom_of match_here] in *.
    1-3: destruct (match_digits _ s) as [s'|] eqn:E; [|inversion H];
         rewrite (IH _ _ H); rewrite (match_digits_length _ _ _ E); reflexivity.
    destruct s as [|c' s]; [inversion H|].
    destruct (Ascii.eqb c c'); [|inversion H].
    now rewrite (IH _ _ H).
Qed.

Lemma moment_valid_exact s f :
  isValid (moment s f) = true ->
  exists a, parse_tokens f s (mkDateArray 0 0 1) = (a, true) /\ overflow a = false.
Proof.
  unfold moment. destruct (parse_tokens f s _) as [a exact]. simpl.
  intros H. apply andb_prop in H. destruct H as [-> H].
  exists a. split; [reflexivity|]. now destruct (overflow a).
Qed.

Lemma is_digit_dash : is_digit "-" = false. Proof. reflexivity. Qed.
Lemma is_digit_slash : is_digit "/" = false. Proof. reflexivity. Qed.
Lemma is_digit_dot : is_digit "." = false. Proof. reflexivity. Qed.

(** Reads off a successful match [H] what it says about the code units
    of the text, one test after the other; a test that contradicts what is
    known closes the case. *)
Ltac shape_of H :=
  repeat (cbn [match_here match_digits option_map] in H;
          match type of H with
          | context [Ascii.eqb ?a ?c] =>
              destruct (Ascii.eqb_spec a c);
              [subst c; rewrite ?is_digit_dash, ?is_digit_slash, ?is_digit_dot in *
              | discriminate H]
          | context [is_digit ?c] =>
              let D := fresh "D" in destruct (is_digit c) eqn:D; [|discriminate H]
          end;
          try discriminate).

(** The four shapes exclude one another. *)
Lemma shapes_disjoint s i j ri rj :
  nth_error DATE_FORMATS i = Some ri -> nth_error DATE_FORMATS j = Some rj ->
  match_here (source ri) s <> None -> match_here (source rj) s <> None ->
  i = j.
Proof.
  intros Hi Hj Mi Mj.
  destruct (match_here (source ri) s) as [ni|] eqn:Ei; [clear Mi|congruence].
  destruct (match_here (source rj) s) as [nj|] eqn:Ej; [clear Mj|congruence].
  destruct s as [|c0 [|c1 [|c2 [|c3 [|c4 s]]]]];
    (destruct i as [|[|[|[|i]]]]; simpl in Hi; try (destruct i; discriminate);
     inversion Hi; subst ri; clear Hi; cbn [source] in Ei; try discriminate Ei);
    (destruct j as [|[|[|[|j]]]]; simpl in Hj; try (destruct j; discriminate);
     inversion Hj; subst rj; clear Hj; cbn [source] in Ej; try discriminate Ej);
    try reflexivity; exfalso.
  all: shape_of Ei; shape_of Ej.
Qed.

Lemma moment_valid_matches s i f regex :
  nth_error formats i = Some f -> nth_error DATE_FORMATS i = Some regex ->
  isValid (moment s f) = true ->
  match_here (source regex) s = Some (String.length s) /\ String.length s = 10%nat.
Proof.
  intros Hf Hr Hv.
  destruct (moment_valid_exact _ _ Hv) as (a & Hp & _).
  apply parse_tokens_match in Hp.
  assert (source regex = map atom_of f) as Hs.
  { destruct i as [|[|[|[|i]]]]; simpl in Hf, Hr;
      try (destruct i; discriminate);
      inversion Hf; inversion Hr; reflexivity. }
  rewrite Hs. split; [exact Hp|].
  apply match_here_len in Hp. destruct Hp as [Hp _].
  rewrite Hp, <- Hs. apply DATE_FORMATS_nonempty. eapply nth_error_In; eauto.
Qed.

(** C7.  A string that is exactly one date, valid under one of the four
    formats, is found once and as a whole: [findDatesInText] returns the
    one-element list holding the input, the match being the one of the
    regular expression of that format at offset 0, and every other regular
    expression of [DATE_FORMATS] finds nothing in it. *)
Theorem find_dates_of_one_date s f w :
  In f formats -> isValid (moment s f) = true ->
  findDatesInText s w = (Ok [s], rest w) /\
  exists i regex,
    nth_error formats i = Some f /\ nth_error DATE_FORMATS i = Some regex /\
    all_matches (source regex) s = [mkMatch s 0] /\
    forall j regex', nth_error DATE_FORMATS j = Some regex' -> j <> i ->
                     all_matches (source regex') s = [].
Proof.
  intros Hin Hv.
  destruct (In_nth_error _ _ Hin) as [i Hi].
  assert (exists regex, nth_error DATE_FORMATS i = Some regex) as [regex Hr].
  { destruct i as [|[|[|[|i]]]]; simpl; eauto. simpl in Hi. destruct i; discriminate. }
  destruct (moment_valid_matches _ _ _ _ Hi Hr Hv) as [Hm Hl].
  assert (forall j regex', nth_error DATE_FORMATS j = Some regex' ->
            all_matches (source regex') s =
            if Nat.eqb j i then [mkMatch s 0] else []) as Hall.
  { intros j regex' Hj.
    assert (pattern_len (source regex') = 10%nat) as Hp
      by (apply DATE_FORMATS_nonempty; eapply nth_error_In; eauto).
    rewrite all_matches_exact by lia.
    destruct (Nat.eqb_spec j i) as [->|Hne].
    - assert (regex' = regex) as -> by congruence. now rewrite Hm.
    - destruct (match_here (source regex') s) eqn:E; [|reflexivity].
      exfalso. apply Hne.
      apply (shapes_disjoint s j i regex' regex); congruence. }
  split.
  - rewrite findDatesInText_run. f_equal. f_equal.
    unfold found_dates, DATE_FORMATS. cbn [flat_map].
    rewrite (Hall 0%nat _ eq_refl), (Hall 1%nat _ eq_refl),
            (Hall 2%nat _ eq_refl), (Hall 3%nat _ eq_refl).
    destruct i as [|[|[|[|i]]]]; try reflexivity.
    simpl in Hr. destruct i; discriminate.
  - exists i, regex. repeat split; auto.
    + rewrite (Hall _ _ Hr). now rewrite Nat.eqb_refl.
    + intros j regex' Hj Hne. rewrite (Hall _ _ Hj).
      destruct (Nat.eqb_spec j i); [contradiction|reflexivity].
Qed.

(** The four supported shapes, each with a valid calendar date. *)
Lemma find_dates_of_one_date_witness :
  (In [YYYY; Sep "-"; MM; Sep "-"; DD] formats /\
   isValid (moment "2024-03-30" [YYYY; Sep "-"; MM; Sep "-"; DD]) = true) /\
  fst (findDatesInText "2024-03-30" (world0 (fun _ => 0))) = Ok ["2024-03-30"] /\
  fst (findDatesInText "03/30/2024" (world0 (fun _ => 0))) = Ok ["03/30/2024"] /\
  fst (findDatesInText "30-03-2024" (world0 (fun _ => 0))) = Ok ["30-03-2024"] /\
  fst (findDatesInText "2024.03.30" (world0 (fun _ => 0))) = Ok ["2024.03.30"].
Proof.
  split; [split; [simpl; tauto | reflexivity]|].
  split; [|split; [|split]].
  - rewrite (proj1 (find_dates_of_one_date "2024-03-30" [YYYY; Sep "-"; MM; Sep "-"; DD] _
                      ltac:(simpl; tauto) eq_refl)); reflexivity.
  - rewrite (proj1 (find_dates_of_one_date "03/30/2024" [MM; Sep "/"; DD; Sep "/"; YYYY] _
                      ltac:(simpl; tauto) eq_refl)); reflexivity.
  - rewrite (proj1 (find_dates_of_one_date "30-03-2024" [DD; Sep "-"; MM; Sep "-"; YYYY] _
                      ltac:(simpl; tauto) eq_refl)); reflexivity.
  - rewrite (proj1 (find_dates_of_one_date "2024.03.30" [YYYY; Sep "."; MM; Sep "."; DD] _
                      ltac:(simpl; tauto) eq_refl)); reflexivity.
Defined.

Lemma flatMap_run {A} (xs : list A) (f : A -> M (list string))
    (g : A -> list string) (step : A -> World -> World) w :
  (forall x w, f x w = (Ok (g x), step x w)) ->
  flatMap xs f w = (Ok (flat_map g xs), fold_left (fun w x => step x w) xs w).
Proof.
  intros Hf. revert w; induction xs as [|x xs IH]; intros w; simpl.
  - reflexivity.
  - unfold bind. rewrite Hf, IH. reflexivity.
Qed.

Lemma DateService_findDatesInText_run text w :
  DateService.findDatesInText text w = (Ok (found_dates text), rest w).
Proof.
  unfold DateService.findDatesInText.
  unfold DATE_FORMATS. cbn [flatMap]. unfold bind.
  repeat (rewrite String_match_run by (simpl; lia); cbn [source slot]; unfold ret at 1).
  unfold found_dates, DATE_FORMATS. cbn [flat_map source]. unfold ret.
  repeat match goal with
         | |- context [match ?l with [] => None | _ :: _ => _ end] =>
             destruct l
         end; reflexivity.
Qed.

(** C8.  [findDatesInText] returns the matches of the first pattern, then
    those of the second, the third and the fourth, where the matches of
    one pattern are its non-overlapping matches from left to right
    ([Scan] from offset 0, which determines them); nothing is removed or
    moved across patterns.  Both revisions of the function agree, and both
    leave the four regular expressions at rest. *)
Theorem findDatesInText_concatenates text w :
  exists ms1 ms2 ms3 ms4,
    Scan [Digits 4; Lit "-"; Digits 2; Lit "-"; Digits 2] text 0 ms1 /\
    Scan [Digits 2; Lit "/"; Digits 2; Lit "/"; Digits 4] text 0 ms2 /\
    Scan [Digits 2; Lit "-"; Digits 2; Lit "-"; Digits 4] text 0 ms3 /\
    Scan [Digits 4; Lit "."; Digits 2; Lit "."; Digits 2] text 0 ms4 /\
    findDatesInText text w =
      (Ok (map m0 ms1 ++ map m0 ms2 ++ map m0 ms3 ++ map m0 ms4), rest w) /\
    DateService.findDatesInText text w = findDatesInText text w.
Proof.
  exists (all_matches [Digits 4; Lit "-"; Digits 2; Lit "-"; Digits 2] text),
         (all_matches [Digits 2; Lit "/"; Digits 2; Lit "/"; Digits 4] text),
         (all_matches [Digits 2; Lit "-"; Digits 2; Lit "-"; Digits 4] text),
         (all_matches [Digits 4; Lit "."; Digits 2; Lit "."; Digits 2] text).
  repeat split; try (apply all_matches_Scan; simpl; lia).
  - rewrite findDatesInText_run. unfold found_dates. simpl flat_map.
    now rewrite app_nil_r.
  - now rewrite DateService_findDatesInText_run, findDatesInText_run.
Qed.

(** Matches of different patterns may overlap and are all reported, in
    pattern order rather than text order. *)
Example findDatesInText_overlap :
  fst (findDatesInText "01/02/2003 2024-03-30-2024" (world0 (fun _ => 0)))
  = Ok ["2024-03-30"; "01/02/2003"; "03-30-2024"].
Proof. reflexivity. Qed.

(** ** The classifier *)

Lemma getHighlightColor_run tz dateStr settings w :
  getHighlightColor tz dateStr settings w =
  match parseDate dateStr with
  | None => (Ok (color_pair settings Old), w)
  | Some date =>
      (Ok (color_pair settings (category_of (diff_days tz (now w) date) settings)),
       tick w)
  end.
Proof.
  unfold getHighlightColor, category_of, color_pair, now.
  destruct (parseDate dateStr) as [date|]; [|reflexivity].
  unfold bind, moment_now.
  destruct (_ <=? recentDays settings); [reflexivity|].
  destruct (_ <=? intermediateDays settings); reflexivity.
Qed.

Lemma generateDateTooltip_run tz dateStr w :
  generateDateTooltip tz dateStr w =
  match parseDate dateStr with
  | None => (Ok EmptyString, w)
  | Some date => (Ok (relative_label (diff_days tz (now w) date)), tick w)
  end.
Proof.
  unfold generateDateTooltip, relative_label, now.
  destruct (parseDate dateStr) as [date|]; [|reflexivity].
  unfold bind, moment_now.
  set (d := diff_days tz _ _).
  destruct (Z.eqb_spec d 0); [reflexivity|].
  destruct (Z.eqb_spec d 1); [reflexivity|].
  destruct (Z.eqb_spec d (-1)); [reflexivity|].
  unfold ret. f_equal. f_equal.
  destruct (Z.gtb_spec d 0), (Z.ltb_spec 0 d); try lia.
  - now replace (Z.abs d) with d by lia.
  - now replace (Z.abs d) with (- d) by lia.
Qed.

Lemma parseDate_loop_spec fs s :
  match parseDate_loop fs s with
  | None => forall f, In f fs -> isValid (moment s f) = false
  | Some m =>
      exists i f, nth_error fs i = Some f /\ m = moment s f /\ isValid m = true /\
                  forall j g, (j < i)%nat -> nth_error fs j = Some g ->
                              isValid (moment s g) = false
  end.
Proof.
  induction fs as [|f fs IH]; simpl.
  - intros f [].
  - destruct (isValid (moment s f)) eqn:E.
    + exists O, f. repeat split; auto. intros j g Hj; lia.
    + destruct (parseDate_loop fs s) as [m|].
      * destruct IH as (i & g & Hi & Hm & Hv & Hlt).
        exists (S i), g. repeat split; auto.
        intros [|j] h Hj Hh; simpl in Hh; [congruence|].
        apply (Hlt j); auto. lia.
      * intros g [<-|Hg]; auto.
Qed.

(** C6.  [parseDate] goes through the formats YYYY-MM-DD, MM/DD/YYYY,
    DD-MM-YYYY, YYYY.MM.DD in this order and returns the parse under the
    first format for which the strict parse is valid, and nothing when no
    format gives a valid parse.  The same holds for the loop over any list
    of formats, so a string valid under several formats of the list is
    parsed under the one listed first. *)
Theorem parseDate_first_valid s :
  parseDate s =
    parseDate_loop [ [YYYY; Sep "-"; MM; Sep "-"; DD];
                     [MM; Sep "/"; DD; Sep "/"; YYYY];
                     [DD; Sep "-"; MM; Sep "-"; YYYY];
                     [YYYY; Sep "."; MM; Sep "."; DD] ] s /\
  forall fs,
    match parseDate_loop fs s with
    | None => forall f, In f fs -> isValid (moment s f) = false
    | Some m =>
        exists i f, nth_error fs i = Some f /\ m = moment s f /\ isValid m = true /\
                    forall j g, (j < i)%nat -> nth_error fs j = Some g ->
                                isValid (moment s g) = false
    end.
Proof. split; [reflexivity|]. intros fs. apply parseDate_loop_spec. Qed.

(** With a list in which two formats accept the same string, the earlier
    one is used. *)
Example parseDate_loop_prefers_first :
  option_map _f
    (parseDate_loop [ [DD; Sep "-"; MM; Sep "-"; YYYY];
                      [MM; Sep "-"; DD; Sep "-"; YYYY] ] "01-02-2024")
  = Some [DD; Sep "-"; MM; Sep "-"; YYYY].
Proof. reflexivity. Qed.

Lemma parseDate_None s :
  (forall f, In f formats -> isValid (moment s f) = false) -> parseDate s = None.
Proof.
  intros H. unfold parseDate.
  pose proof (parseDate_loop_spec formats s) as P.
  destruct (parseDate_loop formats s) as [m|]; [|reflexivity].
  destruct P as (i & f & Hi & Hm & Hv & _).
  apply nth_error_In in Hi. subst m. rewrite (H f Hi) in Hv. discriminate.
Qed.

(** C5.  A string that is not a valid calendar date under any of the four
    formats, whether or not it has the shape of one, is given the old
    colour with the configured text colour and the empty tooltip; neither
    call throws or reads the clock. *)
Theorem unparsable_date_is_old tz s settings w :
  (forall f, In f formats -> isValid (moment s f) = false) ->
  getHighlightColor tz s settings w =
    (Ok (mkColors (oldColor settings) (textColor settings)), w) /\
  generateDateTooltip tz s w = (Ok EmptyString, w).
Proof.
  intros H. apply parseDate_None in H.
  rewrite getHighlightColor_run, generateDateTooltip_run, H. split; reflexivity.
Qed.

(** "2024-02-30" has the shape of the first pattern and is no date. *)
Lemma unparsable_date_is_old_witness :
  found_dates "2024-02-30" = ["2024-02-30"] /\
  (forall f, In f formats -> isValid (moment "2024-02-30" f) = false) /\
  getHighlightColor Etc_UTC "2024-02-30" DEFAULT_SETTINGS (world0 (fun _ => 0)) =
    (Ok (mkColors "#e7a4a4" "#000000"), world0 (fun _ => 0)) /\
  generateDateTooltip Etc_UTC "2024-02-30" (world0 (fun _ => 0)) =
    (Ok EmptyString, world0 (fun _ => 0)).
Proof.
  assert (forall f, In f formats -> isValid (moment "2024-02-30" f) = false) as H.
  { simpl. intros f [<-|[<-|[<-|[<-|[]]]]]; reflexivity. }
  split; [reflexivity|]. split; [exact H|].
  exact (unparsable_date_is_old Etc_UTC "2024-02-30" DEFAULT_SETTINGS (world0 (fun _ => 0)) H).
Defined.

(** C10.  Whatever the string and the settings, [getHighlightColor]
    returns a colour pair whose text colour is the configured [textColor];
    the background is one of the three configured colours. *)
Theorem text_color_is_configured tz s settings w :
  exists c w',
    getHighlightColor tz s settings w = (Ok c, w') /\
    text c = textColor settings /\
    (bg c = recentColor settings \/ bg c = intermediateColor settings \/
     bg c = oldColor settings).
Proof.
  rewrite getHighlightColor_run.
  destruct (parseDate s) as [d|].
  - eexists _, _. split; [reflexivity|]. split; [reflexivity|].
    simpl. destruct (category_of _ _); auto.
  - eexists _, _. split; [reflexivity|]. split; [reflexivity|]. simpl; auto.
Qed.

Lemma diff_days_future tz now_ date :
  now_ < valueOf tz date -> diff_days tz now_ date <= 0.
Proof.
  intros H. unfold diff_days.
  change 0 with (Z.quot 0 msPerDay).
  apply Z.quot_le_mono; [reflexivity | lia].
Qed.

(** C3.  A date string that parses to a day whose instant in the time
    zone of the host (local midnight, or a later instant where the zone
    skips that midnight) is after the current instant has
    [daysSince <= 0]; with [recentDays >= 0] it is classified Recent,
    whatever the other settings and the zone. *)
Theorem future_date_is_recent tz s date settings w :
  parseDate s = Some date ->
  now w < valueOf tz date ->
  0 <= recentDays settings ->
  diff_days tz (now w) date <= 0 /\
  getHighlightColor tz s settings w =
    (Ok (mkColors (recentColor settings) (textColor settings)), tick w).
Proof.
  intros Hp Hf Hr.
  pose proof (diff_days_future tz _ _ Hf) as Hd.
  split; [exact Hd|].
  rewrite getHighlightColor_run, Hp. unfold category_of, color_pair.
  destruct (Z.leb_spec (diff_days tz (now w) date) (recentDays settings)); [reflexivity|lia].
Qed.

(** Three days ahead of 2024-03-30, with the default settings. *)
Lemma future_date_is_recent_witness :
  let w := world0 (fun _ => midnight 2024 3 30) in
  let date := moment "2024-04-02" [YYYY; Sep "-"; MM; Sep "-"; DD] in
  (parseDate "2024-04-02" = Some date /\ now w < valueOf Etc_UTC date /\
   0 <= recentDays DEFAULT_SETTINGS) /\
  diff_days Etc_UTC (now w) date = -3 /\
  getHighlightColor Etc_UTC "2024-04-02" DEFAULT_SETTINGS w =
    (Ok (mkColors "#a4e7c3" "#000000"), tick w).
Proof.
  intros w date.
  assert (parseDate "2024-04-02" = Some date) as Hp by reflexivity.
  assert (now w < valueOf Etc_UTC date) as Hf by reflexivity.
  assert (0 <= recentDays DEFAULT_SETTINGS) as Hr by (simpl; lia).
  split; [auto|]. split; [reflexivity|].
  exact (proj2 (future_date_is_recent Etc_UTC "2024-04-02" date DEFAULT_SETTINGS w Hp Hf Hr)).
Defined.

Lemma diff_days_within_day tz date n t :
  0 <= n -> 0 <= t < msPerDay ->
  diff_days tz (valueOf tz date + n * msPerDay + t) date = n.
Proof.
  intros Hn Ht. unfold diff_days.
  replace (valueOf tz date + n * msPerDay + t - valueOf tz date) with (msPerDay * n + t) by lia.
  symmetry. apply Z.quot_unique with (r := t); [unfold msPerDay in *; nia | lia | reflexivity].
Qed.

(** *** Where the host puts a parsed date *)

Lemma utcOffset_range tz t :
  - msPerDay <= utcOffset tz t * msPerMinute <= msPerDay.
Proof.
  unfold utcOffset. pose proof (LocalTZA_range tz t true) as H.
  unfold msPerDay, msPerMinute in *.
  set (L := LocalTZA tz t true) in *.
  pose proof (Z.div_mod (60000 - 2 * L) (2 * 60000) ltac:(lia)) as E.
  pose proof (Z.mod_pos_bound (60000 - 2 * L) (2 * 60000) ltac:(lia)) as B.
  lia.
Qed.

(** From the year 100 on the instant of a parsed date is less than two
    days away from local midnight of its day, whatever the zone. *)
Lemma valueOf_near_midnight tz m :
  (YEAR (_a m) <? 100) && (YEAR (_a m) >=? 0) = false ->
  MakeDay (YEAR (_a m)) (MONTH (_a m)) (DATE (_a m)) * msPerDay - 2 * msPerDay
  < valueOf tz m <
  MakeDay (YEAR (_a m)) (MONTH (_a m)) (DATE (_a m)) * msPerDay + 2 * msPerDay.
Proof.
  intros Hy. unfold valueOf, createDate. rewrite Hy. unfold UTC.
  set (t := MakeDay _ _ _ * msPerDay).
  pose proof (LocalTZA_range tz t false) as H1.
  pose proof (utcOffset_range tz (t - LocalTZA tz t false)) as H2.
  lia.
Qed.

(** In a zone without transitions at UTC it is local midnight. *)
Lemma valueOf_Etc_UTC m :
  (YEAR (_a m) <? 100) && (YEAR (_a m) >=? 0) = false ->
  valueOf Etc_UTC m = MakeDay (YEAR (_a m)) (MONTH (_a m)) (DATE (_a m)) * msPerDay.
Proof.
  intros Hy. unfold valueOf, createDate. rewrite Hy.
  unfold UTC, utcOffset. cbn [LocalTZA Etc_UTC]. change (- ((msPerMinute - 2 * 0) / (2 * msPerMinute))) with 0.
  lia.
Qed.

Lemma diff_days_range tz now_ date lo hi :
  lo * msPerDay <= now_ - valueOf tz date <= hi * msPerDay ->
  lo <= diff_days tz now_ date <= hi.
Proof.
  intros [H1 H2]. unfold diff_days. split.
  - rewrite <- (Z.quot_mul lo msPerDay) by discriminate.
    apply Z.quot_le_mono; [reflexivity | exact H1].
  - rewrite <- (Z.quot_mul hi msPerDay) by discriminate.
    apply Z.quot_le_mono; [reflexivity | exact H2].
Qed.

(** C4.  For a date string that parses, the colour pair is that of the
    category obtained from [daysSince] by the inclusive tests
    [daysSince <= recentDays], then [daysSince <= intermediateDays], else
    Old.  At any instant of 2024-03-30, with [recentDays = 14] and
    [intermediateDays = 30], "2024-03-29" (1 day) is Recent, "2024-03-10"
    (20 days) is Intermediate and "2024-02-01" (58 days) is Old, in every
    time zone (where the zone moves the instant of a date off its local
    midnight the count of days can change a little, which leaves the date
    in its class). *)
Theorem classification_buckets tz settings w :
  (forall s date, parseDate s = Some date ->
     let daysSince := diff_days tz (now w) date in
     getHighlightColor tz s settings w =
       (Ok (mkColors (if daysSince <=? recentDays settings then recentColor settings
                      else if daysSince <=? intermediateDays settings
                           then intermediateColor settings
                           else oldColor settings)
                     (textColor settings)),
        tick w)) /\
  (forall t, recentDays settings = 14 -> intermediateDays settings = 30 ->
     0 <= t < msPerDay -> now w = midnight 2024 3 30 + t ->
     fst (getHighlightColor tz "2024-03-29" settings w) = Ok (color_pair settings Recent) /\
     fst (getHighlightColor tz "2024-03-10" settings w) = Ok (color_pair settings Intermediate) /\
     fst (getHighlightColor tz "2024-02-01" settings w) = Ok (color_pair settings Old)).
Proof.
  split.
  - intros s date Hp daysSince. rewrite getHighlightColor_run, Hp.
    unfold category_of, color_pair. fold daysSince.
    destruct (daysSince <=? recentDays settings); [reflexivity|].
    destruct (daysSince <=? intermediateDays settings); reflexivity.
  - intros t Hr Hi Ht Hnow.
    rewrite !getHighlightColor_run.
    change (parseDate "2024-03-29")
      with (Some (moment "2024-03-29" [YYYY; Sep "-"; MM; Sep "-"; DD])).
    change (parseDate "2024-03-10")
      with (Some (moment "2024-03-10" [YYYY; Sep "-"; MM; Sep "-"; DD])).
    change (parseDate "2024-02-01")
      with (Some (moment "2024-02-01" [YYYY; Sep "-"; MM; Sep "-"; DD])).
    cbn [fst]. rewrite Hnow. unfold category_of. rewrite Hr, Hi.
    set (fmt := [YYYY; Sep "-"; MM; Sep "-"; DD]).
    pose proof (valueOf_near_midnight tz (moment "2024-03-29" fmt) eq_refl) as B1.
    pose proof (valueOf_near_midnight tz (moment "2024-03-10" fmt) eq_refl) as B2.
    pose proof (valueOf_near_midnight tz (moment "2024-02-01" fmt) eq_refl) as B3.
    change (MakeDay _ _ _ * msPerDay)
      with (midnight 2024 3 30 - 1 * msPerDay) in B1.
    change (MakeDay _ _ _ * msPerDay)
      with (midnight 2024 3 30 - 20 * msPerDay) in B2.
    change (MakeDay _ _ _ * msPerDay)
      with (midnight 2024 3 30 - 58 * msPerDay) in B3.
    pose proof (diff_days_range tz (midnight 2024 3 30 + t) (moment "2024-03-29" fmt) (-1) 4) as D1.
    pose proof (diff_days_range tz (midnight 2024 3 30 + t) (moment "2024-03-10" fmt) 18 23) as D2.
    pose proof (diff_days_range tz (midnight 2024 3 30 + t) (moment "2024-02-01" fmt) 56 61) as D3.
    set (M := midnight 2024 3 30) in *. clearbody M.
    unfold msPerDay in Ht, B1, B2, B3, D1, D2, D3.
    specialize (D1 ltac:(lia)). specialize (D2 ltac:(lia)). specialize (D3 ltac:(lia)).
    repeat split; f_equal; f_equal.
    + destruct (Z.leb_spec (diff_days tz (M + t) (moment "2024-03-29" fmt)) 14);
        [reflexivity | lia].
    + destruct (Z.leb_spec (diff_days tz (M + t) (moment "2024-03-10" fmt)) 14); [lia|].
      destruct (Z.leb_spec (diff_days tz (M + t) (moment "2024-03-10" fmt)) 30);
        [reflexivity | lia].
    + destruct (Z.leb_spec (diff_days tz (M + t) (moment "2024-02-01" fmt)) 14); [lia|].
      destruct (Z.leb_spec (diff_days tz (M + t) (moment "2024-02-01" fmt)) 30);
        [lia | reflexivity].
Qed.

(** Noon of 2024-03-30, with the default settings. *)
Lemma classification_buckets_witness :
  let w := world0 (fun _ => midnight 2024 3 30 + 43200000) in
  (recentDays DEFAULT_SETTINGS = 14 /\ intermediateDays DEFAULT_SETTINGS = 30 /\
   0 <= 43200000 < msPerDay /\ now w = midnight 2024 3 30 + 43200000) /\
  fst (getHighlightColor Etc_UTC "2024-03-29" DEFAULT_SETTINGS w) = Ok (mkColors "#a4e7c3" "#000000") /\
  fst (getHighlightColor Etc_UTC "2024-03-10" DEFAULT_SETTINGS w) = Ok (mkColors "#e7dba4" "#000000") /\
  fst (getHighlightColor Etc_UTC "2024-02-01" DEFAULT_SETTINGS w) = Ok (mkColors "#e7a4a4" "#000000") /\
  parseDate "2024-03-10" = Some (moment "2024-03-10" [YYYY; Sep "-"; MM; Sep "-"; DD]) /\
  getHighlightColor Etc_UTC "2024-03-10" DEFAULT_SETTINGS w =
    (Ok (mkColors "#e7dba4" "#000000"), tick w).
Proof.
  intros w.
  assert (0 <= 43200000 < msPerDay) as Ht by (unfold msPerDay; lia).
  split; [repeat split; try reflexivity; apply Ht|].
  pose proof (proj2 (classification_buckets Etc_UTC DEFAULT_SETTINGS w)
                43200000 eq_refl eq_refl Ht eq_refl) as (H1 & H2 & H3).
  split; [exact H1|]. split; [exact H2|]. split; [exact H3|].
  split; [reflexivity|].
  exact (proj1 (classification_buckets Etc_UTC DEFAULT_SETTINGS w) "2024-03-10"
           (moment "2024-03-10" [YYYY; Sep "-"; MM; Sep "-"; DD]) eq_refl).
Defined.

(** ** Content mode *)

(** *** The builder does not touch the world *)

Lemma addInner_new_Layer from_ to_ v : addInner new_Layer from_ to_ v <> NextLayer.
Proof.
  unfold addInner, js_or. cbn [new_Layer lastTo lastFrom last option_map].
  destruct (Z.eqb_spec (from_ - -1000000000) 0) as [E|E]; [discriminate|].
  destruct (Z.leb_spec (from_ - -1000000000) 0) as [L|L].
  - destruct (Z.ltb_spec (from_ - -1000000000) 0); [discriminate|].
    cbn [andb]. destruct (Z.ltb_spec (from_ - -1000000000) 0); [lia|discriminate].
  - cbn [andb]. destruct (Z.ltb_spec (from_ - -1000000000) 0); [lia|discriminate].
Qed.

Lemma add_pure builder from_ to_ v :
  (exists b, forall w, add builder from_ to_ v w = (Ok b, w)) \/
  (exists msg, forall w, add builder from_ to_ v w = (Throw msg, w)).
Proof.
  induction builder as [|l nextLayer IH]; cbn [add].
  - destruct (addInner new_Layer from_ to_ v);
      [left|right|right]; eexists; intros w; reflexivity.
  - destruct (addInner l from_ to_ v).
    + left; eexists; intros w; reflexivity.
    + destruct IH as [[b Hb]|[msg Hm]].
      * left; eexists; intros w. unfold bind. rewrite Hb. reflexivity.
      * right; eexists; intros w. unfold bind. rewrite Hm. reflexivity.
    + right; eexists; intros w; reflexivity.
Qed.

(** *** What one mark reads and writes *)

(** The colour is computed from one read of the clock and the tooltip from
    the next one. *)
Lemma add_mark_run tz settings from_ m builder w :
  add_mark tz settings from_ m builder w =
  match parseDate (m0 m) with
  | None =>
      add builder (Z.of_nat (from_ + index m))
        (Z.of_nat (from_ + index m + String.length (m0 m)))
        (mkMark ("background-color: " ++ oldColor settings ++ "; color: "
                   ++ textColor settings ++ ";")%string EmptyString) w
  | Some date =>
      let colors :=
        color_pair settings
          (category_of (diff_days tz (clock w (reads w)) date) settings) in
      add builder (Z.of_nat (from_ + index m))
        (Z.of_nat (from_ + index m + String.length (m0 m)))
        (mkMark ("background-color: " ++ bg colors ++ "; color: "
                   ++ text colors ++ ";")%string
                (relative_label (diff_days tz (clock w (S (reads w))) date)))
        (tick (tick w))
  end.
Proof.
  unfold add_mark, bind.
  rewrite getHighlightColor_run.
  destruct (parseDate (m0 m)) as [date|] eqn:E;
    rewrite generateDateTooltip_run, E; reflexivity.
Qed.

Lemma add_mark_keeps tz settings from_ m builder :
  keeps_lastIndex (add_mark tz settings from_ m builder).
Proof.
  intros w. rewrite add_mark_run.
  destruct (parseDate (m0 m)); cbv zeta;
    match goal with
    | |- context [add ?b ?f ?t ?v] =>
        destruct (add_pure b f t v) as [[x H]|[x H]]; rewrite H; reflexivity
    end.
Qed.

Lemma add_mark_terminates tz settings from_ m builder :
  terminates (add_mark tz settings from_ m builder).
Proof.
  intros w. rewrite add_mark_run.
  destruct (parseDate (m0 m)); cbv zeta;
    match goal with
    | |- context [add ?b ?f ?t ?v] =>
        destruct (add_pure b f t v) as [[x H]|[x H]]; rewrite H; discriminate
    end.
Qed.

(** *** A pass that throws *)

Lemma while_exec_step {B} fuel regex text (body : RegExpMatch -> B -> M B) st w :
  while_exec (S fuel) regex text body st w =
  match next_match (source regex) text (get_li (slot regex) (lastIndex w)) with
  | None => (Ok st, set_slot (slot regex) 0 w)
  | Some m =>
      match body m st (set_slot (slot regex) (index m + String.length (m0 m)) w) with
      | (Ok st', w') => while_exec fuel regex text body st' w'
      | (Throw msg, w') => (Throw msg, w')
      | (OutOfFuel, w') => (OutOfFuel, w')
      end
  end.
Proof.
  cbn [while_exec]. unfold bind. rewrite exec_run.
  destruct (next_match _ _ _); reflexivity.
Qed.

(** Computes what the next [exec] finds in a given text. *)
Ltac eval_next_match :=
  match goal with
  | |- context [next_match ?p ?t ?n] =>
      let v := eval vm_compute in (next_match p t n) in
      change (next_match p t n) with v
  end.

(** Computes what [add] does with a mark at given offsets, whatever the
    mark is. *)
Ltac eval_add :=
  match goal with
  | |- context [add ?b ?f ?t (mkMark ?x ?y) ?w] =>
      generalize (mkMark x y); intros ?;
      match goal with
      | |- context [add ?b ?f ?t ?v ?w] =>
          let r := eval vm_compute in (fst (add b f t v w)) in
          change (add b f t v w) with (r, w)
      end
  end.

(** C1.  The pass over the text "03/30/2024 2024-03-30" does not return,
    whatever the colours, the thresholds and the clock: the match of the
    first pattern, at offset 11, is added before the match of the second
    pattern, at offset 0, and [RangeSetBuilder.add] throws.  The exception
    leaves [buildDecorations], after four reads of the clock, and the
    second regular expression keeps [lastIndex = 10]. *)
Theorem buildDecorations_throws_on_unsorted_matches tz settings w :
  highlightInlineContent settings = true ->
  at_rest w ->
  buildDecorations tz settings (mkView "03/30/2024 2024-03-30" [(0, 21)%nat]) w =
    (Throw "Ranges must be added sorted by `from` position and `startSide`",
     mkWorld (mkLI 0 10 0 0) (4 + reads w) (clock w)).
Proof.
  intros Hs Hr. destruct w as [li r c]. unfold at_rest in Hr.
  cbn [lastIndex] in Hr. subst li.
  unfold buildDecorations. rewrite Hs. cbn [negb visibleRanges doc for_of].
  unfold scan_range, DATE_FORMATS. cbn [for_of].
  change (sliceString "03/30/2024 2024-03-30" 0 21) with "03/30/2024 2024-03-30".
  change (loop_bound "03/30/2024 2024-03-30") with 23%nat.
  unfold bind.
  rewrite while_exec_step. eval_next_match. cbv beta iota.
  rewrite add_mark_run.
  change (parseDate (m0 {| m0 := "2024-03-30"; index := 11 |}))
    with (Some (moment "2024-03-30" [YYYY; Sep "-"; MM; Sep "-"; DD])).
  cbv beta iota zeta.
  eval_add. cbv beta iota.
  rewrite while_exec_step. eval_next_match. cbv beta iota.
  rewrite while_exec_step. eval_next_match. cbv beta iota.
  rewrite add_mark_run.
  change (parseDate (m0 {| m0 := "03/30/2024"; index := 0 |}))
    with (Some (moment "03/30/2024" [MM; Sep "/"; DD; Sep "/"; YYYY])).
  cbv beta iota zeta.
  eval_add. reflexivity.
Qed.

(** The default settings, on 2024-03-30. *)
Lemma buildDecorations_throws_on_unsorted_matches_witness :
  let w := world0 (fun _ => midnight 2024 3 30) in
  (highlightInlineContent DEFAULT_SETTINGS = true /\ at_rest w) /\
  fst (buildDecorations Etc_UTC DEFAULT_SETTINGS
         (mkView "03/30/2024 2024-03-30" [(0, 21)%nat]) w) =
    Throw "Ranges must be added sorted by `from` position and `startSide`".
Proof.
  intros w. split; [split; reflexivity|].
  rewrite (buildDecorations_throws_on_unsorted_matches Etc_UTC DEFAULT_SETTINGS w
             eq_refl eq_refl).
  reflexivity.
Defined.

(** After that exception the same pass on the same text returns, with the
    later match only: the second regular expression resumes at offset 10. *)
Example buildDecorations_after_throw :
  let view := mkView "03/30/2024 2024-03-30" [(0, 21)%nat] in
  let w := world0 (fun _ => midnight 2024 3 30) in
  let w' := snd (buildDecorations Etc_UTC DEFAULT_SETTINGS view w) in
  fst (buildDecorations Etc_UTC DEFAULT_SETTINGS view w') =
    Ok [[mkRange 11 21 (mkMark "background-color: #a4e7c3; color: #000000;" "Today")]].
Proof. vm_compute; reflexivity. Qed.

(** Matches of two patterns that overlap go to two layers. *)
Example buildDecorations_overlap :
  fst (buildDecorations Etc_UTC DEFAULT_SETTINGS (mkView "2024-03-30-2024" [(0, 15)%nat])
         (world0 (fun _ => midnight 2024 3 30)))
  = Ok [[mkRange 0 10 (mkMark "background-color: #a4e7c3; color: #000000;" "Today")];
        [mkRange 5 15 (mkMark "background-color: #e7a4a4; color: #000000;" EmptyString)]].
Proof. vm_compute; reflexivity. Qed.

(** When the matches come in text order the pass returns its marks. *)
Example buildDecorations_sorted :
  fst (buildDecorations Etc_UTC DEFAULT_SETTINGS
         (mkView "see 2024-03-29 and 03/30/2024." [(0, 30)%nat])
         (world0 (fun _ => midnight 2024 3 30)))
  = Ok [[mkRange 4 14 (mkMark "background-color: #a4e7c3; color: #000000;" "Yesterday");
         mkRange 19 29 (mkMark "background-color: #a4e7c3; color: #000000;" "Today")]].
Proof. vm_compute; reflexivity. Qed.

(** *** The loops end, and a loop that ends leaves its regular expression
    at rest *)

Lemma while_exec_inv {B} regex text (body : RegExpMatch -> B -> M B) :
  (0 < pattern_len (source regex))%nat ->
  (forall m st, keeps_lastIndex (body m st)) ->
  (forall m st, terminates (body m st)) ->
  forall fuel st w,
    (S (String.length text) - get_li (slot regex) (lastIndex w) < fuel)%nat ->
    fst (while_exec fuel regex text body st w) <> OutOfFuel /\
    forall st', fst (while_exec fuel regex text body st w) = Ok st' ->
      lastIndex (snd (while_exec fuel regex text body st w)) =
      set_li (slot regex) 0 (lastIndex w).
Proof.
  intros Hp Hk Ht. induction fuel as [|fuel IH]; intros st w Hf; [lia|].
  cbn [while_exec]. unfold bind at 1 3 5. rewrite exec_run.
  destruct (next_match _ _ _) as [m|] eqn:E.
  - destruct (next_match_Some _ _ _ _ E) as (Hge & _ & Hle & _ & Hl & _).
    set (w1 := set_slot (slot regex) (index m + String.length (m0 m)) w).
    unfold bind. pose proof (Hk m st w1) as Hk1. pose proof (Ht m st w1) as Ht1.
    destruct (body m st w1) as [[st1|msg|] w2]; cbn [fst snd] in *.
    + assert (lastIndex w2 = set_li (slot regex) (index m + String.length (m0 m))
                                    (lastIndex w)) as Hw2 by (rewrite Hk1; reflexivity).
      destruct (IH st1 w2) as [H1 H2].
      { rewrite Hw2, get_set_same. lia. }
      split; [exact H1|]. intros st' Hs. rewrite (H2 _ Hs), Hw2. apply set_set.
    + split; [discriminate|]. intros st' Hs; discriminate.
    + congruence.
  - split; [discriminate|]. intros st' _. reflexivity.
Qed.

Lemma scan_range_inv tz settings d range builder w :
  fst (scan_range tz settings d range builder w) <> OutOfFuel /\
  forall b, fst (scan_range tz settings d range builder w) = Ok b ->
            lastIndex (snd (scan_range tz settings d range builder w)) = li_rest.
Proof.
  destruct range as [from_ to_]. unfold scan_range, DATE_FORMATS.
  set (txt := sliceString d from_ to_).
  assert (forall regex st w', In regex DATE_FORMATS ->
            fst (while_exec (loop_bound txt) regex txt (add_mark tz settings from_) st w')
              <> OutOfFuel /\
            forall st', fst (while_exec (loop_bound txt) regex txt
                               (add_mark tz settings from_) st w') = Ok st' ->
              lastIndex (snd (while_exec (loop_bound txt) regex txt
                                (add_mark tz settings from_) st w')) =
              set_li (slot regex) 0 (lastIndex w')) as Hloop.
  { intros regex st w' Hin. apply while_exec_inv.
    - rewrite (DATE_FORMATS_nonempty _ Hin). lia.
    - intros; apply add_mark_keeps.
    - intros; apply add_mark_terminates.
    - unfold loop_bound. lia. }
  cbn [for_of]. unfold bind.
  repeat match goal with
         | |- context [while_exec ?f ?r ?t ?b ?st ?w'] =>
             let H1 := fresh "H" in let H2 := fresh "H" in
             destruct (Hloop r st w' ltac:(simpl; tauto)) as [H1 H2];
             destruct (while_exec f r t b st w') as [[?|?|] ?]; cbn [fst snd] in *;
             [specialize (H2 _ eq_refl)
             | split; [discriminate | intros ? ?; discriminate]
             | congruence]
         end.
  split; [discriminate|]. intros b _. cbn [fst snd ret].
  repeat match goal with H : lastIndex _ = _ |- _ => rewrite H; clear H end.
  destruct (lastIndex w); reflexivity.
Qed.

Lemma for_ranges_inv tz settings d ranges builder w :
  fst (for_of ranges (scan_range tz settings d) builder w) <> OutOfFuel /\
  (at_rest w ->
   forall b, fst (for_of ranges (scan_range tz settings d) builder w) = Ok b ->
             at_rest (snd (for_of ranges (scan_range tz settings d) builder w))).
Proof.
  revert builder w; induction ranges as [|range ranges IH]; intros builder w.
  - split; [discriminate|]. intros Hr b _. exact Hr.
  - cbn [for_of]. unfold bind.
    destruct (scan_range_inv tz settings d range builder w) as [H1 H2].
    destruct (scan_range tz settings d range builder w) as [[b1|msg|] w1];
      cbn [fst snd] in *.
    + destruct (IH b1 w1) as [H3 H4]. split; [exact H3|].
      intros _ b Hb. apply (H4 (H2 _ eq_refl) _ Hb).
    + split; [discriminate|]. intros _ b Hb; discriminate.
    + congruence.
Qed.

Lemma buildDecorations_inv tz settings view w :
  fst (buildDecorations tz settings view w) <> OutOfFuel /\
  (at_rest w ->
   forall ds, fst (buildDecorations tz settings view w) = Ok ds ->
              at_rest (snd (buildDecorations tz settings view w))).
Proof.
  unfold buildDecorations.
  destruct (negb (highlightInlineContent settings)).
  - split; [discriminate|]. intros Hr ds _. exact Hr.
  - unfold bind.
    destruct (for_ranges_inv tz settings (doc view) (visibleRanges view)
                new_RangeSetBuilder w) as [H1 H2].
    destruct (for_of _ _ _ w) as [[b|msg|] w1]; cbn [fst snd] in *.
    + split; [discriminate|]. intros Hr ds _. apply (H2 Hr _ eq_refl).
    + split; [discriminate|]. intros _ ds Hd; discriminate.
    + congruence.
Qed.

(** *** With a clock that stands still the pass is a function of its
    input *)

Lemma same_view_tick now_ w1 w2 :
  same_view now_ w1 w2 -> same_view now_ (tick w1) (tick w2).
Proof. intros (H1 & H2 & H3). repeat split; assumption. Qed.

Lemma same_view_set_slot now_ s v w1 w2 :
  same_view now_ w1 w2 -> same_view now_ (set_slot s v w1) (set_slot s v w2).
Proof.
  intros (H1 & H2 & H3). repeat split; try assumption.
  rewrite !lastIndex_set_slot. now rewrite H1.
Qed.

Lemma stable_ret now_ {A} (a : A) : stable now_ (ret a).
Proof. intros w1 w2 H. split; [reflexivity | exact H]. Qed.

Lemma stable_bind now_ {A B} (m : M A) (k : A -> M B) :
  stable now_ m -> (forall a, stable now_ (k a)) -> stable now_ (bind m k).
Proof.
  intros Hm Hk w1 w2 H. unfold bind.
  destruct (Hm w1 w2 H) as [Hr Hw].
  destruct (m w1) as [r1 w1'], (m w2) as [r2 w2']; cbn [fst snd] in *. subst r2.
  destruct r1 as [a|msg|]; [apply Hk; exact Hw | split; [reflexivity|exact Hw] ..].
Qed.

Lemma stable_exec now_ regex text : stable now_ (exec regex text).
Proof.
  intros w1 w2 H. rewrite !exec_run.
  destruct H as (H1 & H2 & H3). rewrite <- H1.
  destruct (next_match _ _ _); cbn [fst snd];
    (split; [reflexivity | apply same_view_set_slot; repeat split; assumption]).
Qed.

Lemma stable_while_exec now_ {B} fuel regex text (body : RegExpMatch -> B -> M B) st :
  (forall m st, stable now_ (body m st)) ->
  stable now_ (while_exec fuel regex text body st).
Proof.
  intros Hb. revert st; induction fuel as [|fuel IH]; intros st; cbn [while_exec].
  - intros w1 w2 H. split; [reflexivity | exact H].
  - apply stable_bind; [apply stable_exec|].
    intros [m|]; [|apply stable_ret].
    apply stable_bind; [apply Hb | intros st'; apply IH].
Qed.

Lemma stable_for_of now_ {A B} (xs : list A) (body : A -> B -> M B) st :
  (forall x st, stable now_ (body x st)) -> stable now_ (for_of xs body st).
Proof.
  intros Hb. revert st; induction xs as [|x xs IH]; intros st; cbn [for_of].
  - apply stable_ret.
  - apply stable_bind; [apply Hb | intros st'; apply IH].
Qed.

Lemma stable_add_mark tz now_ settings from_ m builder :
  stable now_ (add_mark tz settings from_ m builder).
Proof.
  intros w1 w2 H. rewrite !add_mark_run.
  pose proof H as (H1 & H2 & H3).
  destruct (parseDate (m0 m)) as [date|]; cbv zeta.
  - rewrite !H2, !H3.
    match goal with
    | |- context [add ?b ?f ?t ?v] =>
        destruct (add_pure b f t v) as [[x Hx]|[x Hx]]; rewrite !Hx
    end; (split; [reflexivity | now apply same_view_tick, same_view_tick]).
  - match goal with
    | |- context [add ?b ?f ?t ?v] =>
        destruct (add_pure b f t v) as [[x Hx]|[x Hx]]; rewrite !Hx
    end; (split; [reflexivity | exact H]).
Qed.

Lemma stable_buildDecorations tz now_ settings view :
  stable now_ (buildDecorations tz settings view).
Proof.
  unfold buildDecorations.
  destruct (negb (highlightInlineContent settings)); [apply stable_ret|].
  apply stable_bind; [|intros b; apply stable_ret].
  apply stable_for_of. intros [from_ to_] b. unfold scan_range.
  apply stable_for_of. intros regex b'.
  apply stable_while_exec. intros m st. apply stable_add_mark.
Qed.

(** C9, as the program has it.  Started with the regular expressions at
    rest and with a clock that shows the same instant at every read, the
    pass gives an outcome that depends on the settings, the view and that
    instant only; it ends; and when it returns, the regular expressions
    are at rest again, so that running it once more gives the same
    decorations.  The clock is not read once for the pass: each mark takes
    its colour from one read and its tooltip from the next one. *)
Theorem pass_deterministic_with_fixed_clock tz settings view :
  (forall now_ w1 w2,
     at_rest w1 -> at_rest w2 ->
     (forall n, clock w1 n = now_) -> (forall n, clock w2 n = now_) ->
     fst (buildDecorations tz settings view w1) = fst (buildDecorations tz settings view w2) /\
     fst (buildDecorations tz settings view w1) <> OutOfFuel /\
     forall ds, fst (buildDecorations tz settings view w1) = Ok ds ->
       fst (buildDecorations tz settings view (snd (buildDecorations tz settings view w1)))
       = Ok ds) /\
  (forall from_ m builder w date,
     parseDate (m0 m) = Some date ->
     add_mark tz settings from_ m builder w =
     add builder (Z.of_nat (from_ + index m))
       (Z.of_nat (from_ + index m + String.length (m0 m)))
       (mkMark ("background-color: "
                  ++ bg (color_pair settings
                           (category_of (diff_days tz (clock w (reads w)) date) settings))
                  ++ "; color: " ++ textColor settings ++ ";")%string
               (relative_label (diff_days tz (clock w (S (reads w))) date)))
       (tick (tick w))).
Proof.
  split.
  - intros now_ w1 w2 R1 R2 C1 C2.
    assert (same_view now_ w1 w2) as Hv
      by (repeat split; auto; unfold at_rest in *; congruence).
    destruct (stable_buildDecorations tz now_ settings view w1 w2 Hv) as [Hr _].
    destruct (buildDecorations_inv tz settings view w1) as [Ht Hrest].
    repeat split; auto.
    intros ds Hd.
    assert (same_view now_ (snd (buildDecorations tz settings view w1)) w1) as Hv'.
    { destruct (stable_buildDecorations tz now_ settings view w1 w1) as [_ (_ & Hc & _)].
      - repeat split; auto.
      - repeat split; auto.
        rewrite (Hrest R1 _ Hd). symmetry; exact R1. }
    destruct (stable_buildDecorations tz now_ settings view _ _ Hv') as [Hr' _].
    now rewrite Hr'.
  - intros from_ m builder w date Hp. rewrite add_mark_run, Hp. reflexivity.
Qed.

(** Two runs at noon of 2024-03-30, the second one after seven earlier
    reads of the clock; and the mark of "2024-03-29" under a clock that
    passes midnight. *)
Lemma pass_deterministic_with_fixed_clock_witness :
  let noon := midnight 2024 3 30 + 43200000 in
  let view := mkView "see 2024-03-29 and 03/30/2024." [(0, 30)%nat] in
  let w1 := world0 (fun _ => noon) in
  let w2 := mkWorld li_rest 7 (fun _ => noon) in
  let m := mkMatch "2024-03-29" 0 in
  let date := moment "2024-03-29" [YYYY; Sep "-"; MM; Sep "-"; DD] in
  (at_rest w1 /\ at_rest w2 /\
   (forall n, clock w1 n = noon) /\ (forall n, clock w2 n = noon) /\
   parseDate (m0 m) = Some date) /\
  fst (buildDecorations Etc_UTC DEFAULT_SETTINGS view w1) =
    fst (buildDecorations Etc_UTC DEFAULT_SETTINGS view w2) /\
  fst (buildDecorations Etc_UTC DEFAULT_SETTINGS view w1) =
    Ok [[mkRange 4 14 (mkMark "background-color: #a4e7c3; color: #000000;" "Yesterday");
         mkRange 19 29 (mkMark "background-color: #a4e7c3; color: #000000;" "Today")]] /\
  add_mark Etc_UTC DEFAULT_SETTINGS 0 m new_RangeSetBuilder (world0 clock_over_midnight) =
    add new_RangeSetBuilder 0 10
      (mkMark "background-color: #a4e7c3; color: #000000;" "15 days ago")
      (mkWorld li_rest 2 clock_over_midnight).
Proof.
  intros noon view w1 w2 m date.
  assert (at_rest w1) as R1 by reflexivity.
  assert (at_rest w2) as R2 by reflexivity.
  assert (forall n, clock w1 n = noon) as C1 by reflexivity.
  assert (forall n, clock w2 n = noon) as C2 by reflexivity.
  assert (parseDate (m0 m) = Some date) as Hp by reflexivity.
  split; [auto|]. split; [|split].
  - exact (proj1 (proj1 (pass_deterministic_with_fixed_clock Etc_UTC DEFAULT_SETTINGS view)
                    noon w1 w2 R1 R2 C1 C2)).
  - vm_compute; reflexivity.
  - exact (proj2 (pass_deterministic_with_fixed_clock Etc_UTC DEFAULT_SETTINGS view)
             0%nat m new_RangeSetBuilder (world0 clock_over_midnight) date Hp).
Defined.

Lemma label_of_recent_is_not_15 daysSince :
  category_of daysSince DEFAULT_SETTINGS = Recent ->
  relative_label daysSince <> "15 days ago".
Proof.
  unfold category_of. cbn [recentDays intermediateDays DEFAULT_SETTINGS].
  destruct (Z.leb_spec daysSince 14) as [Hle|Hgt];
    [intros _ | destruct (daysSince <=? 30); discriminate].
  destruct (Z.ltb_spec daysSince (-1)) as [Hneg|Hge].
  - unfold relative_label.
    destruct (Z.eqb_spec daysSince 0); [lia|].
    destruct (Z.eqb_spec daysSince 1); [lia|].
    destruct (Z.eqb_spec daysSince (-1)); [lia|].
    destruct (Z.ltb_spec 0 daysSince); [lia|].
    cbn [append]. discriminate.
  - assert (daysSince = -1 \/ daysSince = 0 \/ daysSince = 1 \/ daysSince = 2 \/
            daysSince = 3 \/ daysSince = 4 \/ daysSince = 5 \/ daysSince = 6 \/
            daysSince = 7 \/ daysSince = 8 \/ daysSince = 9 \/ daysSince = 10 \/
            daysSince = 11 \/ daysSince = 12 \/ daysSince = 13 \/ daysSince = 14)
      as H by lia.
    repeat destruct H as [H|H]; subst daysSince; vm_compute; discriminate.
Qed.

(** C9 as stated fails.  With a clock that passes midnight between two
    reads, one pass over "2024-03-29" gives the date the colour of 14 days
    (Recent) and the tooltip of 15 days: the pass has read the clock
    twice, and no single instant gives this colour together with this
    tooltip. *)
Lemma pass_reads_clock_twice :
  let view := mkView "2024-03-29" [(0, 10)%nat] in
  let w := world0 clock_over_midnight in
  buildDecorations Etc_UTC DEFAULT_SETTINGS view w =
    (Ok [[mkRange 0 10 (mkMark "background-color: #a4e7c3; color: #000000;"
                               "15 days ago")]],
     mkWorld li_rest 2 clock_over_midnight) /\
  forall tz now_ date,
    bg (color_pair DEFAULT_SETTINGS
          (category_of (diff_days tz now_ date) DEFAULT_SETTINGS)) = "#a4e7c3" ->
    relative_label (diff_days tz now_ date) <> "15 days ago".
Proof.
  split; [vm_compute; reflexivity|].
  intros tz now_ date H. apply label_of_recent_is_not_15.
  destruct (category_of _ _); [reflexivity | discriminate H | discriminate H].
Qed.

(** ** File-name mode *)





(** ** The two switches *)

Lemma updateFileStyles_disabled tz CSS_escape settings files w :
  highlightFilenames settings = false ->
  updateFileStyles tz CSS_escape settings files w = (Ok EmptyString, w).
Proof. intros H. unfold updateFileStyles. now rewrite H. Qed.

Lemma buildDecorations_disabled tz settings view w :
  highlightInlineContent settings = false ->
  buildDecorations tz settings view w = (Ok Decoration_none, w).
Proof. intros H. unfold buildDecorations. now rewrite H. Qed.

(** ** When the content pass returns *)

Lemma addInner_wf l f t v :
  wf_layer l -> 0 <= f ->
  addInner l f t v =
  if lastTo l <=? f
  then Added (mkLayer (ranges l ++ [mkRange f t v]) (Some v) f t)
  else if f <? lastFrom l then Error unsorted_msg else NextLayer.
Proof.
  intros Hwf Hf. unfold addInner, js_or, startSide, endSide.
  destruct Hwf as [(Hl & Hlf & Hlt)|(Hl & Hlf & Hlt)].
  - rewrite Hl, Hlf, Hlt. cbn [option_map].
    destruct (Z.eqb_spec (f - -1000000000) 0); [lia|].
    destruct (Z.leb_spec (f - -1000000000) 0); [lia|].
    destruct (Z.leb_spec (-1000000000) f); [|lia].
    cbn [andb]. destruct (Z.ltb_spec (f - -1000000000) 0); [lia|reflexivity].
  - destruct (last l) as [d|]; [clear Hl|congruence]. cbn [option_map].
    destruct (Z.leb_spec (lastTo l) f) as [H1|H1].
    + destruct (Z.eqb_spec (f - lastTo l) 0).
      * cbn. reflexivity.
      * destruct (Z.leb_spec (f - lastTo l) 0); [lia|].
        cbn [andb]. destruct (Z.ltb_spec (f - lastTo l) 0); [lia|reflexivity].
    + destruct (Z.eqb_spec (f - lastTo l) 0); [lia|].
      destruct (Z.leb_spec (f - lastTo l) 0); [|lia].
      destruct (Z.eqb_spec (f - lastFrom l) 0).
      * cbn. destruct (Z.ltb_spec (f - lastTo l) 0); [|lia].
        destruct (Z.ltb_spec f (lastFrom l)); [lia|reflexivity].
      * cbn [andb]. destruct (Z.ltb_spec (f - lastFrom l) 0);
          destruct (Z.ltb_spec f (lastFrom l)); try lia; [reflexivity|].
        destruct (Z.ltb_spec (f - lastTo l) 0); [reflexivity|lia].
Qed.

Lemma spans_cons l b :
  spans (l :: b) = map (fun r => (from r, to r)) (ranges l) ++ spans b.
Proof. unfold spans. cbn [flat_map]. now rewrite map_app. Qed.

Lemma wf_added rs v f : 0 <= f -> wf_layer (mkLayer rs (Some v) f (f + 10)).
Proof. intros Hf. right. cbn. repeat split; [discriminate | lia]. Qed.

(** A range that starts no earlier than the last one added is taken. *)
Lemma add_sorted b f v w :
  0 <= f ->
  (forall x, In x b -> wf_layer x /\ lastFrom x <= f) ->
  exists b', add b f (f + 10) v w = (Ok b', w) /\ Inv b' f /\
             Permutation (spans b') (spans b ++ [span_of_start f]).
Proof.
  intros Hf. induction b as [|l b IH]; intros Hall; cbn [add].
  - assert (wf_layer new_Layer) as Hn by (left; repeat split).
    rewrite (addInner_wf _ _ _ _ Hn Hf). cbn [new_Layer lastTo].
    destruct (Z.leb_spec (-1000000000) f); [|lia].
    eexists. split; [reflexivity|]. split.
    + exists [], (mkLayer ([] ++ [mkRange f (f + 10) v]) (Some v) f (f + 10)), [].
      split; [reflexivity|]. split; [now apply wf_added|].
      split; [reflexivity|]. split; intros x [].
    + apply Permutation_refl.
  - destruct (Hall l (or_introl eq_refl)) as [Hwf Hle].
    rewrite (addInner_wf _ _ _ _ Hwf Hf).
    destruct (Z.leb_spec (lastTo l) f) as [H1|H1].
    + eexists. split; [reflexivity|]. split.
      * exists [], (mkLayer (ranges l ++ [mkRange f (f + 10) v]) (Some v) f (f + 10)), b.
        split; [reflexivity|]. split; [now apply wf_added|].
        split; [reflexivity|]. split; [intros x []|].
        intros x Hx. apply Hall. now right.
      * rewrite !spans_cons. cbn [ranges]. rewrite map_app. cbn [map from to].
        unfold span_of_start.
        rewrite <- !app_assoc. apply Permutation_app_head.
        apply Permutation_app_comm.
    + destruct (Z.ltb_spec f (lastFrom l)); [lia|].
      destruct IH as (b' & Hb & Hinv & Hperm); [intros x Hx; apply Hall; now right|].
      unfold bind. rewrite Hb. eexists. split; [reflexivity|]. split.
      * destruct Hinv as (pre & l' & post & -> & Hwf' & Hlf & Hpre & Hpost).
        exists (l :: pre), l', post.
        split; [reflexivity|]. split; [assumption|]. split; [assumption|].
        split; [|assumption].
        intros x [<-|Hx]; [split; [assumption|lia] | now apply Hpre].
      * rewrite !spans_cons, <- app_assoc. now apply Permutation_app_head.
Qed.

(** A range that starts before the last one added is refused. *)
Lemma add_descent b F f v w :
  Inv b F -> 0 <= f < F ->
  add b f (f + 10) v w = (Throw unsorted_msg, w).
Proof.
  intros (pre & l & post & -> & Hwf & Hlf & Hpre & _) Hf.
  induction pre as [|x pre IH]; cbn [app add].
  - rewrite (addInner_wf _ _ _ _ Hwf) by lia.
    destruct Hwf as [(_ & Hc & _)|(_ & H0 & Ht)]; [lia|].
    destruct (Z.leb_spec (lastTo l) f); [lia|].
    destruct (Z.ltb_spec f (lastFrom l)); [reflexivity|lia].
  - destruct (Hpre x (or_introl eq_refl)) as [Hwx Hx].
    rewrite (addInner_wf _ _ _ _ Hwx) by lia.
    destruct (Z.leb_spec (lastTo x) f); [lia|].
    destruct (Z.ltb_spec f (lastFrom x)); [reflexivity|].
    unfold bind. rewrite IH; [reflexivity|].
    intros y Hy. apply Hpre. now right.
Qed.

Lemma last_cons {A} (a : A) l d : List.last (a :: l) d = List.last l a.
Proof.
  revert a d; induction l as [|x l IH]; intros a d; [reflexivity|].
  change (List.last (a :: x :: l) d) with (List.last (x :: l) d).
  now rewrite !IH.
Qed.

Lemma last_app {A} (l1 l2 : list A) d :
  List.last (l1 ++ l2) d = List.last l2 (List.last l1 d).
Proof.
  revert d; induction l1 as [|a l1 IH]; intros d; [reflexivity|].
  cbn [app]. now rewrite !last_cons, IH.
Qed.

Lemma chain_app F l1 l2 :
  chain F (l1 ++ l2) = chain F l1 && chain (List.last l1 F) l2.
Proof.
  revert F; induction l1 as [|a l1 IH]; intros F; cbn [app chain].
  - reflexivity.
  - now rewrite IH, last_cons, andb_assoc.
Qed.

Lemma chain_nondecreasing a l :
  chain (Z.of_nat a) (map Z.of_nat l) = nondecreasing (a :: l).
Proof.
  revert a; induction l as [|b l IH]; intros a; [reflexivity|].
  cbn [map chain nondecreasing]. rewrite IH. f_equal.
  destruct (Z.leb_spec (Z.of_nat a) (Z.of_nat b)), (Nat.leb_spec a b);
    try reflexivity; lia.
Qed.

Lemma chain_from_start l :
  chain (-1000000000) (map Z.of_nat l) = nondecreasing l.
Proof.
  destruct l as [|a l]; [reflexivity|].
  cbn [map chain]. rewrite chain_nondecreasing.
  destruct (Z.leb_spec (-1000000000) (Z.of_nat a)); [reflexivity|lia].
Qed.

Lemma Inv_layers b F x :
  Inv b F -> In x b -> wf_layer x /\ lastFrom x <= F.
Proof.
  intros (pre & l & post & -> & Hwf & Hlf & Hpre & Hpost) Hx.
  apply in_app_or in Hx. destruct Hx as [Hx|[<-|Hx]].
  - destruct (Hpre _ Hx) as [H1 H2]. split; [assumption|lia].
  - split; [assumption|lia].
  - apply (Hpost _ Hx).
Qed.

Lemma adds_nil b F : Inv b F -> adds [] b F (Ok b).
Proof.
  intros H. unfold adds. cbn. exists b. repeat split; auto.
  now rewrite app_nil_r.
Qed.

(** One mark, then the others. *)
Lemma adds_one s b F r1 :
  adds [s] b F r1 <->
  if F <=? Z.of_nat s
  then exists b1, r1 = Ok b1 /\ Inv b1 (Z.of_nat s) /\
                  Permutation (spans b1) (spans b ++ [span_of_start (Z.of_nat s)])
  else r1 = Throw unsorted_msg.
Proof.
  unfold adds. cbn [map chain List.last]. rewrite andb_true_r. reflexivity.
Qed.

Lemma adds_cons s ss b F r1 r :
  adds [s] b F r1 ->
  (forall b1, r1 = Ok b1 -> Inv b1 (Z.of_nat s) -> adds ss b1 (Z.of_nat s) r) ->
  (forall msg, r1 = Throw msg -> r = Throw msg) ->
  adds (s :: ss) b F r.
Proof.
  intros H1 Hok Hthrow. apply adds_one in H1.
  unfold adds in *. cbn [map chain].
  destruct (F <=? Z.of_nat s); cbn [andb].
  - destruct H1 as (b1 & -> & Hi1 & Hp1). specialize (Hok b1 eq_refl Hi1).
    destruct (chain (Z.of_nat s) (map Z.of_nat ss)).
    + destruct Hok as (b' & -> & Hi & Hp). exists b'. split; [reflexivity|].
      split; [now rewrite last_cons|].
      eapply Permutation_trans; [exact Hp|].
      change (span_of_start (Z.of_nat s) :: ?l)
        with ([span_of_start (Z.of_nat s)] ++ l).
      rewrite app_assoc. apply Permutation_app_tail. exact Hp1.
    + exact Hok.
  - apply Hthrow. exact H1.
Qed.

Lemma adds_app ss1 ss2 b F r1 r :
  adds ss1 b F r1 ->
  (forall b1, r1 = Ok b1 -> Inv b1 (List.last (map Z.of_nat ss1) F) ->
              adds ss2 b1 (List.last (map Z.of_nat ss1) F) r) ->
  (forall msg, r1 = Throw msg -> r = Throw msg) ->
  adds (ss1 ++ ss2) b F r.
Proof.
  unfold adds. rewrite !map_app, chain_app, last_app. intros H1 Hok Hthrow.
  destruct (chain F (map Z.of_nat ss1)); cbn [andb].
  - destruct H1 as (b1 & -> & Hi1 & Hp1). specialize (Hok b1 eq_refl Hi1).
    destruct (chain _ (map Z.of_nat ss2)).
    + destruct Hok as (b' & -> & Hi & Hp). exists b'. split; [reflexivity|].
      split; [assumption|].
      eapply Permutation_trans; [exact Hp|].
      rewrite app_assoc. apply Permutation_app_tail. exact Hp1.
    + exact Hok.
  - apply Hthrow. exact H1.
Qed.

(** What [add_mark] does to the builder and to the world. *)
Lemma add_mark_shape tz settings from_ m b w :
  exists v w2,
    add_mark tz settings from_ m b w =
      add b (Z.of_nat (from_ + index m))
        (Z.of_nat (from_ + index m + String.length (m0 m))) v w2 /\
    lastIndex w2 = lastIndex w.
Proof.
  rewrite add_mark_run. destruct (parseDate (m0 m)); cbv zeta;
    eexists _, _; split; reflexivity.
Qed.

Lemma add_mark_adds tz settings from_ m b F w :
  String.length (m0 m) = 10%nat -> Inv b F ->
  adds [(from_ + index m)%nat] b F (fst (add_mark tz settings from_ m b w)) /\
  lastIndex (snd (add_mark tz settings from_ m b w)) = lastIndex w.
Proof.
  intros Hl Hinv.
  destruct (add_mark_shape tz settings from_ m b w) as (v & w2 & -> & Hw2).
  rewrite Hl.
  replace (Z.of_nat (from_ + index m + 10)) with (Z.of_nat (from_ + index m) + 10)
    by lia.
  set (f := Z.of_nat (from_ + index m)).
  assert (0 <= f) as Hf by (unfold f; lia).
  apply and_comm. split; [|apply adds_one; fold f].
  { destruct (Z.leb_spec F f) as [Hle|Hlt].
    - destruct (add_sorted b f v w2 Hf) as (b' & Hb & Hi & Hp).
      { intros x Hx. destruct (Inv_layers _ _ _ Hinv Hx). split; [assumption|lia]. }
      now rewrite Hb.
    - now rewrite (add_descent b F f v w2 Hinv) by lia. }
  destruct (Z.leb_spec F f) as [Hle|Hlt].
  - destruct (add_sorted b f v w2 Hf) as (b' & Hb & Hi & Hp).
    { intros x Hx. destruct (Inv_layers _ _ _ Hinv Hx). split; [assumption|lia]. }
    rewrite Hb. cbn [fst]. exists b'. repeat split; assumption.
  - rewrite (add_descent b F f v w2 Hinv) by lia. reflexivity.
Qed.

Lemma run_matches_adds tz settings from_ s ms :
  Forall (fun m => String.length (m0 m) = 10%nat) ms ->
  forall b F w, Inv b F ->
    adds (map (fun m => (from_ + index m)%nat) ms) b F
         (fst (run_matches (add_mark tz settings from_) s ms b w)) /\
    (forall b', fst (run_matches (add_mark tz settings from_) s ms b w) = Ok b' ->
       lastIndex (snd (run_matches (add_mark tz settings from_) s ms b w)) =
       set_li s 0 (lastIndex w)).
Proof.
  induction 1 as [|m ms Hm Hms IH]; intros b F w Hinv; cbn [run_matches map].
  - split; [now apply adds_nil | reflexivity].
  - set (w1 := set_slot s (index m + String.length (m0 m)) w).
    destruct (add_mark_adds tz settings from_ m b F w1 Hm Hinv) as [Ha Hw].
    pose proof (proj1 (adds_one _ _ _ _) Ha) as Ha'.
    destruct (add_mark tz settings from_ m b w1) as [[b1|msg|] w2]; cbn [fst snd] in *.
    + assert (Inv b1 (Z.of_nat (from_ + index m))) as Hi.
      { destruct (F <=? _); [|discriminate].
        destruct Ha' as (b1' & Hb & Hi & _). now inversion Hb. }
      split.
      * eapply adds_cons; [exact Ha | | discriminate].
        intros b1' Hb _. inversion Hb; subst b1'. apply (IH b1 _ w2 Hi).
      * intros b' Hb'.
        rewrite (proj2 (IH b1 _ w2 Hi) b' Hb'), Hw. unfold w1.
        rewrite lastIndex_set_slot. apply set_set.
    + split; [|intros b' Hb'; discriminate].
      eapply adds_cons; [exact Ha | discriminate |].
      intros msg' Hm'. exact Hm'.
    + exfalso. destruct (F <=? _); [|discriminate].
      destruct Ha' as (? & Hb & _). discriminate.
Qed.

Lemma while_exec_run_matches {B} regex text (body : RegExpMatch -> B -> M B) :
  (0 < pattern_len (source regex))%nat ->
  (forall m st, keeps_lastIndex (body m st)) ->
  forall fuel st w,
    (S (String.length text) - get_li (slot regex) (lastIndex w) < fuel)%nat ->
    while_exec fuel regex text body st w =
    run_matches body (slot regex)
      (scan fuel (source regex) text (get_li (slot regex) (lastIndex w))) st w.
Proof.
  intros Hp Hk. induction fuel as [|fuel IH]; intros st w Hf; [lia|].
  rewrite while_exec_step. cbn [scan].
  destruct (next_match _ _ _) as [m|] eqn:E; [|reflexivity].
  destruct (next_match_Some _ _ _ _ E) as (Hge & _ & Hle & _ & Hl & _).
  cbn [run_matches].
  set (w1 := set_slot (slot regex) (index m + String.length (m0 m)) w).
  pose proof (Hk m st w1) as Hk1.
  destruct (body m st w1) as [[st1|msg|] w2]; cbn [snd] in Hk1; try reflexivity.
  assert (get_li (slot regex) (lastIndex w2) = (index m + String.length (m0 m))%nat)
    as Hg by (rewrite Hk1; unfold w1; rewrite lastIndex_set_slot; apply get_set_same).
  rewrite IH by (rewrite Hg; lia). now rewrite Hg.
Qed.

Lemma scan_lengths p text fuel pos :
  Forall (fun m => String.length (m0 m) = pattern_len p) (scan fuel p text pos).
Proof.
  revert pos; induction fuel as [|fuel IH]; intros pos; cbn [scan]; [constructor|].
  destruct (next_match p text pos) as [m|] eqn:E; [|constructor].
  constructor; [|apply IH].
  now destruct (next_match_Some _ _ _ _ E) as (_ & _ & _ & _ & Hl & _).
Qed.

Lemma at_rest_get s w : at_rest w -> get_li s (lastIndex w) = 0%nat.
Proof. unfold at_rest. intros ->. destruct s; reflexivity. Qed.

Lemma at_rest_set s w w' :
  at_rest w -> lastIndex w' = set_li s 0 (lastIndex w) -> at_rest w'.
Proof. unfold at_rest. intros -> ->. destruct s; reflexivity. Qed.

(** The loop over the patterns, for one visible range. *)
Lemma regexes_adds tz settings from_ txt (rs : list RegExp) :
  (forall regex, In regex rs -> In regex DATE_FORMATS) ->
  forall b F w, at_rest w -> Inv b F ->
    adds (flat_map (fun regex =>
                      map (fun m => (from_ + index m)%nat)
                          (all_matches (source regex) txt)) rs)
         b F
         (fst (for_of rs
                 (fun regex builder =>
                    while_exec (loop_bound txt) regex txt (add_mark tz settings from_)
                               builder) b w)) /\
    (forall b',
       fst (for_of rs
              (fun regex builder =>
                 while_exec (loop_bound txt) regex txt (add_mark tz settings from_)
                            builder) b w) = Ok b' ->
       at_rest (snd (for_of rs
                       (fun regex builder =>
                          while_exec (loop_bound txt) regex txt
                                     (add_mark tz settings from_) builder) b w))).
Proof.
  induction rs as [|regex rs IH]; intros Hin b F w Hr Hinv; cbn [for_of flat_map].
  - split; [now apply adds_nil | intros b' _; exact Hr].
  - assert (pattern_len (source regex) = 10%nat) as Hp
      by (apply DATE_FORMATS_nonempty, Hin; now left).
    unfold bind.
    rewrite while_exec_run_matches;
      [ | lia | intros; apply add_mark_keeps | unfold loop_bound; lia].
    rewrite (at_rest_get _ _ Hr). fold (all_matches (source regex) txt).
    destruct (run_matches_adds tz settings from_ (slot regex)
                (all_matches (source regex) txt)) with (b := b) (F := F) (w := w)
      as [Ha Hw]; [|exact Hinv|].
    { rewrite <- Hp. apply scan_lengths. }
    destruct (run_matches _ _ _ b w) as [[b1|msg|] w1]; cbn [fst snd] in *.
    + assert (at_rest w1) as Hr1 by (eapply at_rest_set; [exact Hr | exact (Hw b1 eq_refl)]).
      split.
      * eapply adds_app; [exact Ha | | discriminate].
        intros b1' Hb Hi. inversion Hb; subst b1'.
        apply IH; auto. intros r Hr'. apply Hin. now right.
      * intros b' Hb'.
        assert (Inv b1 (List.last
                  (map Z.of_nat (map (fun m => (from_ + index m)%nat)
                                     (all_matches (source regex) txt))) F)) as Hi.
        { unfold adds in Ha. destruct (chain F _); [|discriminate].
          destruct Ha as (b1' & Hb & Hi & _). now inversion Hb. }
        eapply (proj2 (IH (fun r Hr' => Hin r (or_intror Hr')) b1 _ w1 Hr1 Hi)).
        exact Hb'.
    + split; [|intros b' Hb'; discriminate].
      eapply adds_app; [exact Ha | discriminate | intros ? H; exact H].
    + exfalso. unfold adds in Ha. destruct (chain F _); [|discriminate].
      destruct Ha as (? & Hb & _). discriminate.
Qed.

(** The loop over the visible ranges. *)
Lemma ranges_adds tz settings d (rgs : list (nat * nat)) :
  forall b F w, at_rest w -> Inv b F ->
    adds (flat_map (range_starts d) rgs) b F
         (fst (for_of rgs (scan_range tz settings d) b w)) /\
    (forall b', fst (for_of rgs (scan_range tz settings d) b w) = Ok b' ->
                at_rest (snd (for_of rgs (scan_range tz settings d) b w))).
Proof.
  induction rgs as [|[from_ to_] rgs IH]; intros b F w Hr Hinv;
    cbn [for_of flat_map].
  - split; [now apply adds_nil | intros b' _; exact Hr].
  - unfold bind.
    destruct (regexes_adds tz settings from_ (sliceString d from_ to_) DATE_FORMATS
                (fun r H => H) b F w Hr Hinv) as [Ha Hw].
    change (range_starts d (from_, to_))
      with (flat_map (fun regex =>
                        map (fun m => (from_ + index m)%nat)
                            (all_matches (source regex) (sliceString d from_ to_)))
                     DATE_FORMATS).
    change (scan_range tz settings d (from_, to_) b w)
      with (for_of DATE_FORMATS
              (fun regex builder =>
                 while_exec (loop_bound (sliceString d from_ to_)) regex
                            (sliceString d from_ to_) (add_mark tz settings from_)
                            builder) b w).
    destruct (for_of DATE_FORMATS _ b w) as [[b1|msg|] w1]; cbn [fst snd] in *.
    + pose proof (Hw _ eq_refl) as Hr1.
      split.
      * eapply adds_app; [exact Ha | | discriminate].
        intros b1' Hb Hi. inversion Hb; subst b1'. now apply IH.
      * intros b' Hb'.
        assert (Inv b1 (List.last
                  (map Z.of_nat
                     (flat_map (fun regex =>
                        map (fun m => (from_ + index m)%nat)
                            (all_matches (source regex) (sliceString d from_ to_)))
                        DATE_FORMATS)) F)) as Hi.
        { unfold adds in Ha. destruct (chain F _); [|discriminate].
          destruct Ha as (b1' & Hb & Hi & _). now inversion Hb. }
        apply (proj2 (IH b1 _ w1 Hr1 Hi) b' Hb').
    + split; [|intros b' Hb'; discriminate].
      eapply adds_app; [exact Ha | discriminate | intros ? H; exact H].
    + exfalso. unfold adds in Ha. destruct (chain F _); [|discriminate].
      destruct Ha as (? & Hb & _). discriminate.
Qed.

Lemma Inv_new : Inv new_RangeSetBuilder (-1000000000).
Proof.
  exists [], new_Layer, []. split; [reflexivity|].
  split; [left; repeat split|]. split; [reflexivity|]. split; intros x [].
Qed.

Lemma concat_finish b : List.concat (finish b) = flat_map ranges b.
Proof.
  induction b as [|l b IH]; cbn [finish flat_map]; [reflexivity|].
  destruct (ranges l) eqn:E; [exact IH|]. cbn [List.concat]. now rewrite IH.
Qed.

(** The whole pass, started with the regular expressions at rest. *)
Lemma buildDecorations_adds tz settings view w :
  highlightInlineContent settings = true -> at_rest w ->
  if nondecreasing (pass_starts view)
  then exists ds,
         fst (buildDecorations tz settings view w) = Ok ds /\
         at_rest (snd (buildDecorations tz settings view w)) /\
         Permutation (map (fun r => (from r, to r)) (List.concat ds))
                     (map span_of_start (map Z.of_nat (pass_starts view)))
  else fst (buildDecorations tz settings view w) = Throw unsorted_msg.
Proof.
  intros Hs Hr. unfold buildDecorations. rewrite Hs. cbn [negb]. unfold bind.
  destruct (ranges_adds tz settings (doc view) (visibleRanges view)
              new_RangeSetBuilder _ w Hr Inv_new) as [Ha Hw].
  fold (pass_starts view) in Ha. unfold adds in Ha.
  rewrite chain_from_start in Ha.
  destruct (nondecreasing (pass_starts view)).
  - destruct Ha as (b' & Hb & _ & Hp).
    destruct (for_of _ _ _ w) as [r w1]; cbn [fst snd] in *. subst r.
    exists (finish b'). split; [reflexivity|]. split; [exact (Hw b' eq_refl)|].
    rewrite concat_finish. exact Hp.
  - destruct (for_of _ _ _ w) as [r w1]; cbn [fst] in *. now subst r.
Qed.

(** X1.  With inline highlighting on and the regular expressions at rest,
    the content pass returns a decoration set exactly when the start
    offsets of the matches, taken range by range, pattern by pattern and
    from left to right within a pattern, never step down; otherwise the
    exception of [RangeSetBuilder.add] leaves [buildDecorations].  The
    pass has no other outcome. *)
Theorem buildDecorations_returns_iff_sorted tz settings view w :
  highlightInlineContent settings = true -> at_rest w ->
  ((exists ds, fst (buildDecorations tz settings view w) = Ok ds) <->
   nondecreasing (pass_starts view) = true) /\
  (nondecreasing (pass_starts view) = false ->
   fst (buildDecorations tz settings view w) = Throw unsorted_msg).
Proof.
  intros Hs Hr. pose proof (buildDecorations_adds tz settings view w Hs Hr) as H.
  destruct (nondecreasing (pass_starts view)).
  - destruct H as (ds & Hd & _). split; [|discriminate].
    split; [reflexivity | intros _; now exists ds].
  - split; [|intros _; exact H].
    split; [|discriminate]. intros [ds Hd]. rewrite H in Hd. discriminate.
Qed.

(** One text on which the pass returns and one on which it throws. *)
Lemma buildDecorations_returns_iff_sorted_witness :
  let w := world0 (fun _ => midnight 2024 3 30) in
  let good := mkView "see 2024-03-29 and 03/30/2024." [(0, 30)%nat] in
  let bad := mkView "03/30/2024 2024-03-29" [(0, 21)%nat] in
  (highlightInlineContent DEFAULT_SETTINGS = true /\ at_rest w) /\
  pass_starts good = [4; 19]%nat /\
  (exists ds, fst (buildDecorations Etc_UTC DEFAULT_SETTINGS good w) = Ok ds) /\
  pass_starts bad = [11; 0]%nat /\
  fst (buildDecorations Etc_UTC DEFAULT_SETTINGS bad w) = Throw unsorted_msg.
Proof.
  intros w good bad.
  assert (highlightInlineContent DEFAULT_SETTINGS = true) as Hs by reflexivity.
  assert (at_rest w) as Hr by reflexivity.
  split; [auto|]. split; [reflexivity|]. split; [|split; [reflexivity|]].
  - apply (proj1 (buildDecorations_returns_iff_sorted Etc_UTC DEFAULT_SETTINGS good w Hs Hr)).
    reflexivity.
  - apply (proj2 (buildDecorations_returns_iff_sorted Etc_UTC DEFAULT_SETTINGS bad w Hs Hr)).
    reflexivity.
Defined.



(** ** What a match is *)

Lemma take_S n c s : take (S n) (String c s) = String c (take n s).
Proof. reflexivity. Qed.

Lemma match_digits_take n s s' k :
  match_digits n s = Some s' ->
  match_digits n (take (n + k) s) = Some (take k s').
Proof.
  revert s; induction n as [|n IH]; intros s H; cbn [match_digits] in *.
  - now inversion H.
  - destruct s as [|c s]; [discriminate|].
    destruct (is_digit c) eqn:D; [|discriminate].
    cbn [Nat.add]. rewrite take_S. cbn [match_digits]. rewrite D. now apply IH.
Qed.

Lemma match_here_take_more p s len k :
  match_here p s = Some len -> match_here p (take (len + k) s) = Some len.
Proof.
  revert s len; induction p as [|a p IH]; intros s len H; cbn [match_here] in *.
  - exact H.
  - destruct a as [n|c].
    + destruct (match_digits n s) as [s'|] eqn:E; [|discriminate].
      destruct (match_here p s') as [l|] eqn:E'; [|discriminate].
      cbn [option_map] in H. inversion H; subst len.
      rewrite <- Nat.add_assoc, (match_digits_take _ _ _ _ E), (IH _ _ E').
      reflexivity.
    + destruct s as [|c' s]; [discriminate|].
      destruct (Ascii.eqb c c') eqn:D; [|discriminate].
      destruct (match_here p s) as [l|] eqn:E'; [|discriminate].
      cbn [option_map] in H. inversion H; subst len.
      cbn [Nat.add]. rewrite take_S, D, (IH _ _ E'). reflexivity.
Qed.

(** The matched text alone has the shape of the pattern. *)
Lemma match_here_take p s len :
  match_here p s = Some len -> match_here p (take len s) = Some len.
Proof.
  intros H. rewrite <- (Nat.add_0_r len) at 1. now apply match_here_take_more.
Qed.

Lemma take_nil n : take n EmptyString = EmptyString.
Proof. destruct n; reflexivity. Qed.

Lemma take_0 s : take 0 s = EmptyString.
Proof. destruct s; reflexivity. Qed.

Lemma take_take n m s : (n <= m)%nat -> take n (take m s) = take n s.
Proof.
  revert m s; induction n as [|n IH]; intros m s H.
  - now rewrite !take_0.
  - destruct m as [|m]; [lia|]. destruct s as [|c s]; [reflexivity|].
    rewrite !take_S. f_equal. apply IH. lia.
Qed.

Lemma drop_take i k s : drop i (take k s) = take (k - i) (drop i s).
Proof.
  revert k s; induction i as [|i IH]; intros k s.
  - now rewrite Nat.sub_0_r.
  - destruct s as [|c s].
    + now rewrite take_nil, !drop_nil, take_nil.
    + destruct k as [|k]; [now rewrite !take_0, drop_nil|].
      rewrite take_S. cbn [drop Nat.sub]. apply IH.
Qed.

Lemma take_length_le k s : (String.length (take k s) <= k)%nat.
Proof.
  revert s; induction k as [|k IH]; intros s.
  - destruct s; simpl; lia.
  - destruct s as [|c s]; [simpl; lia|]. rewrite take_S. simpl.
    specialize (IH s). lia.
Qed.

Lemma take_length_le_s k s : (String.length (take k s) <= String.length s)%nat.
Proof.
  revert s; induction k as [|k IH]; intros s.
  - destruct s; simpl; lia.
  - destruct s as [|c s]; [simpl; lia|]. rewrite take_S. simpl.
    specialize (IH s). lia.
Qed.

(** A piece of a slice is a piece of the document, moved by the start of
    the slice. *)
Lemma substring_sliceString d from_ to_ i n :
  (0 < n)%nat ->
  (i + n <= String.length (sliceString d from_ to_))%nat ->
  substring i n (sliceString d from_ to_) = substring (from_ + i) n d /\
  (from_ + i + n <= to_)%nat /\ (from_ + i + n <= String.length d)%nat.
Proof.
  unfold sliceString. rewrite <- !take_drop_substring. intros Hn H.
  pose proof (take_length_le (to_ - from_) (drop from_ d)) as H1.
  pose proof (take_length_le_s (to_ - from_) (drop from_ d)) as H2.
  rewrite drop_length in H2.
  split; [|lia].
  rewrite drop_take, drop_drop. apply take_take. lia.
Qed.

(** What every match of a scan is. *)
Lemma scan_matches p text fuel pos :
  Forall (fun m => (index m + pattern_len p <= String.length text)%nat /\
                   m0 m = substring (index m) (pattern_len p) text /\
                   match_here p (m0 m) = Some (pattern_len p))
         (scan fuel p text pos).
Proof.
  revert pos; induction fuel as [|fuel IH]; intros pos; cbn [scan]; [constructor|].
  destruct (next_match p text pos) as [m|] eqn:E; [|constructor].
  constructor; [|apply IH].
  destruct (next_match_Some _ _ _ _ E) as (_ & [_ Hat] & Hle & H0 & _ & _).
  repeat split; auto.
  rewrite H0, <- take_drop_substring.
  destruct (match_here p (drop (index m) text)) as [len|] eqn:Em; [|congruence].
  destruct (match_here_len _ _ _ Em) as [-> _].
  now apply match_here_take.
Qed.

(** Every start offset of a pass lies inside a visible range and inside
    the document, and the ten code units of the document from there have
    the shape of one of the four patterns. *)
Lemma pass_starts_in_range view s :
  In s (pass_starts view) ->
  exists from_ to_ regex,
    In (from_, to_) (visibleRanges view) /\ In regex DATE_FORMATS /\
    (from_ <= s)%nat /\ (s + 10 <= to_)%nat /\ (s + 10 <= String.length (doc view))%nat /\
    match_here (source regex) (substring s 10 (doc view)) = Some 10%nat.
Proof.
  unfold pass_starts. intros H. apply in_flat_map in H.
  destruct H as ([from_ to_] & Hrange & H). unfold range_starts in H.
  apply in_flat_map in H. destruct H as (regex & Hregex & H).
  apply in_map_iff in H. destruct H as (m & <- & Hm).
  pose proof (DATE_FORMATS_nonempty _ Hregex) as Hp.
  pose proof (scan_matches (source regex) (sliceString (doc view) from_ to_)
                (loop_bound (sliceString (doc view) from_ to_)) 0) as Hall.
  rewrite Forall_forall in Hall. destruct (Hall m Hm) as (Hle & H0 & Hshape).
  rewrite Hp in *.
  destruct (substring_sliceString (doc view) from_ to_ (index m) 10
              ltac:(lia) Hle)
    as (Hsub & Hto & Hlen).
  exists from_, to_, regex. repeat split; auto; try lia.
  now rewrite <- Hsub, <- H0.
Qed.

(** X3.  Every range of the decoration set that a pass returns (started
    with the regular expressions at rest) covers ten code units that lie
    inside one of the visible ranges and inside the document, and these
    ten code units of the document have the shape of one of the four
    patterns: the offsets that [exec] finds in the slice of a visible
    range are moved to document offsets, by [from + match.index],
    correctly. *)
Theorem marks_cover_dates tz settings view w ds r :
  highlightInlineContent settings = true -> at_rest w ->
  fst (buildDecorations tz settings view w) = Ok ds ->
  In r (List.concat ds) ->
  exists s from_ to_ regex,
    from r = Z.of_nat s /\ to r = Z.of_nat (s + 10) /\
    In (from_, to_) (visibleRanges view) /\ In regex DATE_FORMATS /\
    (from_ <= s)%nat /\ (s + 10 <= to_)%nat /\ (s + 10 <= String.length (doc view))%nat /\
    match_here (source regex) (substring s 10 (doc view)) = Some 10%nat.
Proof.
  intros Hs Hr Hd Hin.
  pose proof (buildDecorations_adds tz settings view w Hs Hr) as H.
  destruct (nondecreasing (pass_starts view)); [|rewrite H in Hd; discriminate].
  destruct H as (ds' & Hd' & _ & Hp).
  assert (ds' = ds) as -> by congruence.
  assert (In (from r, to r) (map (fun r => (from r, to r)) (List.concat ds))) as Hin'
    by (apply in_map_iff; exists r; split; [reflexivity | exact Hin]).
  apply (Permutation_in _ Hp) in Hin'.
  rewrite map_map in Hin'. apply in_map_iff in Hin'.
  destruct Hin' as (s & Hspan & Hstart).
  unfold span_of_start in Hspan. injection Hspan as Hfrom Hto.
  destruct (pass_starts_in_range view s Hstart)
    as (from_ & to_ & regex & H1 & H2 & H3 & H4 & H5 & H6).
  exists s, from_, to_, regex.
  split; [now symmetry|]. split; [lia|].
  repeat split; assumption.
Qed.

(** The second mark of a note whose visible range starts at offset 4: the
    match is found at offset 15 of the slice and marked at offset 19 of
    the document. *)
Lemma marks_cover_dates_witness :
  let w := world0 (fun _ => midnight 2024 3 30) in
  let view := mkView "see 2024-03-29 and 03/30/2024." [(4, 30)%nat] in
  let r := mkRange 19 29 (mkMark "background-color: #a4e7c3; color: #000000;" "Today") in
  let ds := [[mkRange 4 14 (mkMark "background-color: #a4e7c3; color: #000000;"
                                   "Yesterday"); r]] in
  (highlightInlineContent DEFAULT_SETTINGS = true /\ at_rest w /\
   fst (buildDecorations Etc_UTC DEFAULT_SETTINGS view w) = Ok ds /\
   In r (List.concat ds)) /\
  exists s from_ to_ regex,
    from r = Z.of_nat s /\ to r = Z.of_nat (s + 10) /\
    In (from_, to_) (visibleRanges view) /\ In regex DATE_FORMATS /\
    (from_ <= s)%nat /\ (s + 10 <= to_)%nat /\ (s + 10 <= String.length (doc view))%nat /\
    match_here (source regex) (substring s 10 (doc view)) = Some 10%nat.
Proof.
  intros w view r ds.
  assert (fst (buildDecorations Etc_UTC DEFAULT_SETTINGS view w) = Ok ds) as Hd
    by (vm_compute; reflexivity).
  assert (In r (List.concat ds)) as Hin by (right; left; reflexivity).
  split; [repeat split; auto|].
  exact (marks_cover_dates Etc_UTC DEFAULT_SETTINGS view w ds r eq_refl eq_refl Hd Hin).
Defined.

Lemma moment_format s f : _f (moment s f) = f.
Proof. unfold moment. destruct (parse_tokens f s _). reflexivity. Qed.

Lemma nth_DATE_FORMATS_formats i f :
  nth_error formats i = Some f -> exists regex, nth_error DATE_FORMATS i = Some regex.
Proof.
  destruct i as [|[|[|[|i]]]]; cbn; eauto. destruct i; discriminate.
Qed.

(** X4.  A date string that [text.match] returns for one of the four
    regular expressions can only be parsed with the format of that
    regular expression: [parseDate] gives the strict parse under that
    format when it is valid, and nothing otherwise; the other three
    formats never apply to it. *)
Theorem found_date_parses_under_its_pattern text i regex f w ds d :
  nth_error DATE_FORMATS i = Some regex ->
  nth_error formats i = Some f ->
  fst (String_match text regex w) = Ok (Some ds) ->
  In d ds ->
  parseDate d = (if isValid (moment d f) then Some (moment d f) else None).
Proof.
  intros Hr Hf Hm Hd.
  assert (In regex DATE_FORMATS) as Hin by (eapply nth_error_In; eauto).
  pose proof (DATE_FORMATS_nonempty _ Hin) as Hp.
  rewrite String_match_run in Hm by lia. cbn [fst] in Hm.
  assert (In d (map m0 (all_matches (source regex) text))) as Hd'.
  { destruct (map m0 _); [discriminate|]. inversion Hm; subst. exact Hd. }
  apply in_map_iff in Hd'. destruct Hd' as (m & <- & Hmm).
  pose proof (scan_matches (source regex) text (loop_bound text) 0) as Hall.
  rewrite Forall_forall in Hall. destruct (Hall m Hmm) as (_ & _ & Hshape).
  unfold parseDate.
  pose proof (parseDate_loop_spec formats (m0 m)) as Hs.
  destruct (parseDate_loop formats (m0 m)) as [mo|].
  - destruct Hs as (j & g & Hj & -> & Hv & _).
    destruct (nth_DATE_FORMATS_formats _ _ Hj) as [rj Hrj].
    destruct (moment_valid_matches _ _ _ _ Hj Hrj Hv) as [Hmj _].
    assert (j = i) as -> by (apply (shapes_disjoint (m0 m) j i rj regex); congruence).
    assert (g = f) as -> by congruence.
    now rewrite Hv.
  - rewrite (Hs f); [reflexivity|]. eapply nth_error_In; eauto.
Qed.

(** "03-04-2024" is found by the third pattern and read as 3 April. *)
Lemma found_date_parses_under_its_pattern_witness :
  let w := world0 (fun _ => 0) in
  let regex := mkRegExp Slot2 [Digits 2; Lit "-"; Digits 2; Lit "-"; Digits 4] in
  let f := [DD; Sep "-"; MM; Sep "-"; YYYY] in
  (nth_error DATE_FORMATS 2 = Some regex /\ nth_error formats 2 = Some f /\
   fst (String_match "due 03-04-2024" regex w) = Ok (Some ["03-04-2024"]) /\
   In "03-04-2024" ["03-04-2024"]) /\
  option_map _a (parseDate "03-04-2024") = Some (mkDateArray 2024 3 3).
Proof.
  intros w regex f.
  assert (fst (String_match "due 03-04-2024" regex w) = Ok (Some ["03-04-2024"]))
    as Hm by reflexivity.
  split; [repeat split; auto; now left|].
  rewrite (found_date_parses_under_its_pattern "due 03-04-2024" 2 regex f w
             ["03-04-2024"] "03-04-2024" eq_refl eq_refl Hm (or_introl eq_refl)).
  reflexivity.
Defined.

Lemma scan_count p text fuel pos :
  (pattern_len p * List.length (scan fuel p text pos) <= String.length text - pos)%nat.
Proof.
  revert pos; induction fuel as [|fuel IH]; intros pos; cbn [scan]; [simpl; lia|].
  destruct (next_match p text pos) as [m|] eqn:E; [|simpl; lia].
  destruct (next_match_Some _ _ _ _ E) as (Hge & _ & Hle & _ & Hl & _).
  cbn [List.length]. specialize (IH (index m + String.length (m0 m))%nat).
  rewrite Nat.mul_succ_r. lia.
Qed.

Lemma all_matches_nil p text :
  (0 < pattern_len p)%nat ->
  (all_matches p text = [] <-> forall j, ~ matches_at p text j).
Proof.
  intros Hp. unfold all_matches, loop_bound. cbn [scan]. split.
  - intros H j. destruct (next_match p text 0) eqn:E; [discriminate|].
    apply (next_match_None _ _ _ E). lia.
  - intros H. destruct (next_match p text 0) as [m|] eqn:E; [|reflexivity].
    destruct (next_match_Some _ _ _ _ E) as (_ & Hat & _). now apply H in Hat.
Qed.

(** X5.  Every string that [findDatesInText] returns is ten code units of
    the text that have the shape of one of the four patterns; it returns
    the empty list exactly when no pattern matches anywhere in the text;
    and, a pattern's matches not overlapping, it returns at most four
    strings for every ten code units of the text. *)
Theorem findDatesInText_sound text w ds :
  fst (findDatesInText text w) = Ok ds ->
  (forall d, In d ds ->
     exists j regex,
       In regex DATE_FORMATS /\ (j + 10 <= String.length text)%nat /\
       d = substring j 10 text /\ match_here (source regex) d = Some 10%nat) /\
  (ds = [] <->
   forall regex, In regex DATE_FORMATS -> forall j, ~ matches_at (source regex) text j) /\
  (10 * List.length ds <= 4 * String.length text)%nat.
Proof.
  rewrite findDatesInText_run. cbn [fst]. intros H. inversion H; subst ds. clear H.
  split; [|split].
  - intros d Hd. unfold found_dates in Hd. apply in_flat_map in Hd.
    destruct Hd as (regex & Hin & Hd). apply in_map_iff in Hd.
    destruct Hd as (m & <- & Hm).
    pose proof (DATE_FORMATS_nonempty _ Hin) as Hp.
    pose proof (scan_matches (source regex) text (loop_bound text) 0) as Hall.
    rewrite Forall_forall in Hall. destruct (Hall m Hm) as (Hle & H0 & Hshape).
    rewrite Hp in *. exists (index m), regex. auto.
  - unfold found_dates. split.
    + intros H regex Hin.
      apply all_matches_nil; [rewrite (DATE_FORMATS_nonempty _ Hin); lia|].
      destruct (all_matches (source regex) text) as [|m ms] eqn:E; [reflexivity|].
      exfalso.
      assert (In (m0 m) (flat_map (fun regex => map m0 (all_matches (source regex) text))
                                  DATE_FORMATS)) as Hc.
      { apply in_flat_map. exists regex. split; [assumption|]. rewrite E. now left. }
      rewrite H in Hc. destruct Hc.
    + intros H.
      assert (forall regex, In regex DATE_FORMATS -> all_matches (source regex) text = [])
        as Hnil.
      { intros regex Hin. apply all_matches_nil; [|now apply H].
        rewrite (DATE_FORMATS_nonempty _ Hin). lia. }
      unfold DATE_FORMATS in *. cbn [flat_map].
      rewrite !Hnil by (cbn; tauto). reflexivity.
  - unfold found_dates, DATE_FORMATS. cbn [flat_map source].
    rewrite !length_app, !length_map. cbn [List.length].
    repeat match goal with
           | |- context [all_matches ?p text] =>
               let H := fresh in
               pose proof (scan_count p text (loop_bound text) 0) as H;
               fold (all_matches p text) in H; cbn [pattern_len] in H;
               generalize dependent (List.length (all_matches p text)); intros
           end.
    lia.
Qed.

(** A note with two dates. *)
Lemma findDatesInText_sound_witness :
  let w := world0 (fun _ => 0) in
  let text := "from 01/02/2003 to 2024-03-30" in
  fst (findDatesInText text w) = Ok ["2024-03-30"; "01/02/2003"] /\
  exists j regex,
    In regex DATE_FORMATS /\ (j + 10 <= String.length text)%nat /\
    "01/02/2003" = substring j 10 text /\
    match_here (source regex) "01/02/2003" = Some 10%nat.
Proof.
  intros w text.
  assert (fst (findDatesInText text w) = Ok ["2024-03-30"; "01/02/2003"]) as H
    by reflexivity.
  split; [exact H|].
  apply (proj1 (findDatesInText_sound text w _ H)). right. now left.
Defined.

(** ** More on the classifier *)

Lemma category_of_mono k1 k2 settings :
  k1 <= k2 -> (rank (category_of k1 settings) <= rank (category_of k2 settings))%nat.
Proof.
  intros H. unfold category_of.
  destruct (Z.leb_spec k1 (recentDays settings)), (Z.leb_spec k2 (recentDays settings)),
    (Z.leb_spec k1 (intermediateDays settings)),
    (Z.leb_spec k2 (intermediateDays settings)); cbn; lia.
Qed.

(** X6.  Ages only move a date towards Old.  The age of a parsed date is
    counted from its instant in the time zone of the host ([valueOf]:
    local midnight of its day, or a later instant where the zone skips
    that midnight) to the instant at which it is classified.  Of two
    parsed dates, the one with the greater age never gets a fresher
    category than the other; in particular one date never becomes fresher
    as time passes.  This needs no assumption on the two thresholds or on
    the zone. *)
Theorem older_date_never_fresher tz s1 s2 d1 d2 settings w1 w2 :
  parseDate s1 = Some d1 -> parseDate s2 = Some d2 ->
  now w2 - valueOf tz d2 <= now w1 - valueOf tz d1 ->
  exists c1 c2,
    getHighlightColor tz s1 settings w1 = (Ok (color_pair settings c1), tick w1) /\
    getHighlightColor tz s2 settings w2 = (Ok (color_pair settings c2), tick w2) /\
    (rank c2 <= rank c1)%nat.
Proof.
  intros H1 H2 Hle. rewrite !getHighlightColor_run, H1, H2.
  eexists _, _. split; [reflexivity|]. split; [reflexivity|].
  apply category_of_mono. unfold diff_days.
  apply Z.quot_le_mono; [reflexivity | exact Hle].
Qed.

(** In America/Santiago, where 8 September 2024 starts at 01:00, with the
    thresholds 0 and 1: "2024-09-01" at 00:15 of the next day is 24 hours
    and a quarter old, "2024-09-08" at 00:30 of the next day is 23 hours
    and a half old. *)
Lemma older_date_never_fresher_witness :
  let settings := mkSettings true true "#a4e7c3" "#e7dba4" "#e7a4a4" 0 1 "#000000" in
  let w1 := world0 (fun _ => midnight 2024 9 2 + 15 * msPerMinute) in
  let w2 := world0 (fun _ => midnight 2024 9 9 + 30 * msPerMinute) in
  let d1 := moment "2024-09-01" [YYYY; Sep "-"; MM; Sep "-"; DD] in
  let d2 := moment "2024-09-08" [YYYY; Sep "-"; MM; Sep "-"; DD] in
  (parseDate "2024-09-01" = Some d1 /\ parseDate "2024-09-08" = Some d2 /\
   now w2 - valueOf America_Santiago d2 <= now w1 - valueOf America_Santiago d1) /\
  valueOf America_Santiago d2 = midnight 2024 9 8 + 60 * msPerMinute /\
  getHighlightColor America_Santiago "2024-09-01" settings w1 =
    (Ok (color_pair settings Intermediate), tick w1) /\
  getHighlightColor America_Santiago "2024-09-08" settings w2 =
    (Ok (color_pair settings Recent), tick w2) /\
  exists c1 c2,
    getHighlightColor America_Santiago "2024-09-01" settings w1 =
      (Ok (color_pair settings c1), tick w1) /\
    getHighlightColor America_Santiago "2024-09-08" settings w2 =
      (Ok (color_pair settings c2), tick w2) /\
    (rank c2 <= rank c1)%nat.
Proof.
  intros settings w1 w2 d1 d2.
  assert (parseDate "2024-09-01" = Some d1) as H1 by reflexivity.
  assert (parseDate "2024-09-08" = Some d2) as H2 by reflexivity.
  assert (now w2 - valueOf America_Santiago d2 <= now w1 - valueOf America_Santiago d1)
    as Hle by (vm_compute; discriminate).
  split; [auto|].
  split; [vm_compute; reflexivity|].
  split; [vm_compute; reflexivity|].
  split; [vm_compute; reflexivity|].
  exact (older_date_never_fresher America_Santiago _ _ d1 d2 settings w1 w2 H1 H2 Hle).
Defined.

(** X7.  When [intermediateDays] is not above [recentDays] the
    intermediate colour is out of reach: every string is given the recent
    pair or the old pair. *)
Theorem inverted_thresholds_no_intermediate tz settings s w :
  intermediateDays settings <= recentDays settings ->
  fst (getHighlightColor tz s settings w) = Ok (color_pair settings Recent) \/
  fst (getHighlightColor tz s settings w) = Ok (color_pair settings Old).
Proof.
  intros H. rewrite getHighlightColor_run.
  destruct (parseDate s) as [d|]; cbn [fst]; [|now right].
  unfold category_of.
  destruct (Z.leb_spec (diff_days tz (now w) d) (recentDays settings)); [now left|].
  destruct (Z.leb_spec (diff_days tz (now w) d) (intermediateDays settings)); [lia|].
  now right.
Qed.

(** Thresholds 30 and 14, the wrong way round: a date 20 days back. *)
Lemma inverted_thresholds_no_intermediate_witness :
  let settings := mkSettings true true "#a4e7c3" "#e7dba4" "#e7a4a4" 30 14 "#000000" in
  let w := world0 (fun _ => midnight 2024 3 30) in
  intermediateDays settings <= recentDays settings /\
  (fst (getHighlightColor Etc_UTC "2024-03-10" settings w) = Ok (color_pair settings Recent) \/
   fst (getHighlightColor Etc_UTC "2024-03-10" settings w) = Ok (color_pair settings Old)).
Proof.
  intros settings w.
  assert (intermediateDays settings <= recentDays settings) as H by (cbn; lia).
  split; [exact H|].
  exact (inverted_thresholds_no_intermediate Etc_UTC settings "2024-03-10" w H).
Defined.

(** ** Tooltips *)

Lemma number_to_string_digit n :
  exists c rest, number_to_string n = String c rest /\ is_digit c = true.
Proof.
  unfold number_to_string.
  destruct (N.to_uint (Z.to_N n)); cbn; eexists _, _; split; reflexivity.
Qed.

Lemma N_to_uint_nonnil n : N.to_uint n <> Decimal.Nil.
Proof.
  destruct n as [|p]; [discriminate|]. cbn.
  apply DecimalPos.Unsigned.to_uint_nonnil.
Qed.

Lemma number_to_string_inj a b :
  0 <= a -> 0 <= b -> number_to_string a = number_to_string b -> a = b.
Proof.
  unfold number_to_string. intros Ha Hb H.
  assert (Some (N.to_uint (Z.to_N a)) = Some (N.to_uint (Z.to_N b))) as E.
  { rewrite <- !NilZero.usu by apply N_to_uint_nonnil. now rewrite H. }
  inversion E as [E']. apply DecimalN.Unsigned.to_uint_inj in E'. lia.
Qed.

Lemma append_length s t :
  String.length (s ++ t)%string = (String.length s + String.length t)%nat.
Proof. induction s as [|c s IH]; cbn; [reflexivity | now rewrite IH]. Qed.

Lemma append_cancel_r s1 s2 t : (s1 ++ t = s2 ++ t)%string -> s1 = s2.
Proof.
  intros H.
  assert (String.length s1 = String.length s2) as Hl.
  { apply (f_equal String.length) in H. rewrite !append_length in H. lia. }
  revert s2 H Hl; induction s1 as [|c s1 IH]; intros [|c2 s2] H Hl;
    try discriminate; [reflexivity|].
  cbn in H. inversion H. f_equal. apply IH; auto.
Qed.

(** The five forms of a tooltip. *)
Lemma relative_label_cases k :
  (k = 0 /\ relative_label k = "Today") \/
  (k = 1 /\ relative_label k = "Yesterday") \/
  (k = -1 /\ relative_label k = "Tomorrow") \/
  (1 < k /\ relative_label k = (number_to_string k ++ " days ago")%string) \/
  (k < -1 /\ relative_label k = ("In " ++ number_to_string (- k) ++ " days")%string).
Proof.
  unfold relative_label.
  destruct (Z.eqb_spec k 0); [auto|].
  destruct (Z.eqb_spec k 1); [auto|].
  destruct (Z.eqb_spec k (-1)); [auto 6|].
  destruct (Z.ltb_spec 0 k); [right; right; right; left | right; right; right; right];
    (split; [lia|reflexivity]).
Qed.

(** Closes a case in which a tooltip that starts with a number would be
    one that starts with a letter. *)
Ltac number_is_no_word H :=
  match type of H with
  | context [number_to_string ?n] =>
      let c := fresh "c" in let r := fresh "r" in
      let E := fresh "E" in let D := fresh "D" in
      destruct (number_to_string_digit n) as (c & r & E & D);
      rewrite E in H; cbn [append] in H; inversion H; subst c; discriminate D
  end.

Lemma relative_label_inj k1 k2 :
  relative_label k1 = relative_label k2 -> k1 = k2.
Proof.
  intros H.
  destruct (relative_label_cases k1) as [[? E1]|[[? E1]|[[? E1]|[[? E1]|[? E1]]]]];
    destruct (relative_label_cases k2) as [[? E2]|[[? E2]|[[? E2]|[[? E2]|[? E2]]]]];
    rewrite E1, E2 in H; try lia; try discriminate H;
    try number_is_no_word H.
  - apply append_cancel_r in H. apply number_to_string_inj in H; lia.
  - cbn [append] in H. inversion H as [H'].
    apply append_cancel_r in H'. apply number_to_string_inj in H'; lia.
Qed.

Lemma diff_days_0 a : Z.quot a msPerDay = 0 <-> - msPerDay < a < msPerDay.
Proof.
  rewrite Z.quot_small_iff by discriminate. unfold msPerDay. lia.
Qed.

Lemma diff_days_pos a k :
  0 < k -> (Z.quot a msPerDay = k <-> k * msPerDay <= a < (k + 1) * msPerDay).
Proof.
  intros Hk. unfold msPerDay. split.
  - intros H. assert (0 <= a).
    { destruct (Z.le_gt_cases 0 a); [assumption|].
      assert (Z.quot a 86400000 <= Z.quot 0 86400000)
        by (apply Z.quot_le_mono; lia).
      rewrite Z.quot_0_l in H1 by discriminate. lia. }
    rewrite Z.quot_div_nonneg in H by lia. subst k.
    pose proof (Z.mul_div_le a 86400000 ltac:(lia)).
    pose proof (Z.mul_succ_div_gt a 86400000 ltac:(lia)). lia.
  - intros H. rewrite Z.quot_div_nonneg by lia.
    symmetry. apply Z.div_unique with (r := a - k * 86400000); lia.
Qed.

Lemma diff_days_neg a k :
  k < 0 -> (Z.quot a msPerDay = k <-> (k - 1) * msPerDay < a <= k * msPerDay).
Proof.
  intros Hk.
  assert (Z.quot a msPerDay = - Z.quot (- a) msPerDay) as E
    by (rewrite Z.quot_opp_l by discriminate; lia).
  rewrite E.
  assert (- Z.quot (- a) msPerDay = k <-> Z.quot (- a) msPerDay = - k) as -> by lia.
  rewrite diff_days_pos by lia. unfold msPerDay. lia.
Qed.

(** X8.  Which instants give the three named tooltips of a parsed date.
    The instant of the date is the one the host builds for it in its time
    zone ([valueOf]: local midnight of its day, or a later instant where
    the zone skips that midnight).  Ages are truncated towards zero, so
    "Today" is shown throughout the 48 hours around that instant,
    "Yesterday" when it lies from one day up to two days back on the local
    clock, and "Tomorrow" when it lies from one day up to two days
    ahead. *)
Theorem named_tooltips tz s date w :
  parseDate s = Some date ->
  (fst (generateDateTooltip tz s w) = Ok "Today" <->
   - msPerDay < now w - valueOf tz date < msPerDay) /\
  (fst (generateDateTooltip tz s w) = Ok "Yesterday" <->
   msPerDay <= now w - valueOf tz date < 2 * msPerDay) /\
  (fst (generateDateTooltip tz s w) = Ok "Tomorrow" <->
   - (2 * msPerDay) < now w - valueOf tz date <= - msPerDay).
Proof.
  intros Hp. rewrite generateDateTooltip_run, Hp. cbn [fst].
  unfold diff_days.
  pose proof (diff_days_0 (now w - valueOf tz date)) as H0.
  pose proof (diff_days_pos (now w - valueOf tz date) 1 ltac:(lia)) as H1.
  pose proof (diff_days_neg (now w - valueOf tz date) (-1) ltac:(lia)) as H2.
  set (k := Z.quot (now w - valueOf tz date) msPerDay) in *.
  assert (forall l, Ok (relative_label k) = Ok l <-> relative_label k = l) as Hok
    by (intros l; split; [intros [= ->] | intros ->]; reflexivity).
  rewrite !Hok.
  change "Today" with (relative_label 0).
  change "Yesterday" with (relative_label 1).
  change "Tomorrow" with (relative_label (-1)).
  split; [|split]; split; intros Hx.
  - apply relative_label_inj in Hx. now apply H0.
  - f_equal. now apply H0.
  - apply relative_label_inj in Hx. apply H1 in Hx. unfold msPerDay in *. lia.
  - f_equal. apply H1. unfold msPerDay in *. lia.
  - apply relative_label_inj in Hx. apply H2 in Hx. unfold msPerDay in *. lia.
  - f_equal. apply H2. unfold msPerDay in *. lia.
Qed.

(** In America/Santiago 8 September 2024 starts at 01:00, so at 00:30 of
    9 September the date "2024-09-08" is 23 hours and a half old and still
    labelled "Today"; in a zone that has the midnight it is "Yesterday". *)
Lemma named_tooltips_witness :
  let w := world0 (fun _ => midnight 2024 9 9 + 30 * msPerMinute) in
  let date := moment "2024-09-08" [YYYY; Sep "-"; MM; Sep "-"; DD] in
  (parseDate "2024-09-08" = Some date /\
   - msPerDay < now w - valueOf America_Santiago date < msPerDay /\
   msPerDay <= now w - valueOf Etc_UTC date < 2 * msPerDay) /\
  fst (generateDateTooltip America_Santiago "2024-09-08" w) = Ok "Today" /\
  fst (generateDateTooltip Etc_UTC "2024-09-08" w) = Ok "Yesterday".
Proof.
  intros w date.
  assert (parseDate "2024-09-08" = Some date) as Hp by reflexivity.
  assert (- msPerDay < now w - valueOf America_Santiago date < msPerDay) as Hn
    by (vm_compute; split; reflexivity).
  assert (msPerDay <= now w - valueOf Etc_UTC date < 2 * msPerDay) as Hy
    by (vm_compute; split; [discriminate | reflexivity]).
  split; [auto|]. split.
  - exact (proj2 (proj1 (named_tooltips America_Santiago "2024-09-08" date w Hp)) Hn).
  - exact (proj2 (proj1 (proj2 (named_tooltips Etc_UTC "2024-09-08" date w Hp))) Hy).
Defined.

(** X9.  The tooltip tells the age: two parsed dates, each at its own
    instant, have the same tooltip exactly when their ages in whole days
    are the same. *)
Theorem tooltip_tells_age tz s1 s2 d1 d2 w1 w2 :
  parseDate s1 = Some d1 -> parseDate s2 = Some d2 ->
  (fst (generateDateTooltip tz s1 w1) = fst (generateDateTooltip tz s2 w2) <->
   diff_days tz (now w1) d1 = diff_days tz (now w2) d2).
Proof.
  intros H1 H2. rewrite !generateDateTooltip_run, H1, H2. cbn [fst]. split.
  - intros [= H]. now apply relative_label_inj.
  - now intros ->.
Qed.

(** The same day written in two formats. *)
Lemma tooltip_tells_age_witness :
  let w := world0 (fun _ => midnight 2024 3 30) in
  let d1 := moment "2024-03-25" [YYYY; Sep "-"; MM; Sep "-"; DD] in
  let d2 := moment "25-03-2024" [DD; Sep "-"; MM; Sep "-"; YYYY] in
  (parseDate "2024-03-25" = Some d1 /\ parseDate "25-03-2024" = Some d2 /\
   diff_days Etc_UTC (now w) d1 = diff_days Etc_UTC (now w) d2) /\
  fst (generateDateTooltip Etc_UTC "2024-03-25" w) = fst (generateDateTooltip Etc_UTC "25-03-2024" w).
Proof.
  intros w d1 d2.
  assert (parseDate "2024-03-25" = Some d1) as H1 by reflexivity.
  assert (parseDate "25-03-2024" = Some d2) as H2 by reflexivity.
  assert (diff_days Etc_UTC (now w) d1 = diff_days Etc_UTC (now w) d2) as He by reflexivity.
  split; [auto|].
  exact (proj2 (tooltip_tells_age Etc_UTC _ _ d1 d2 w w H1 H2) He).
Defined.

(** ** More on file-name mode *)

Lemma file_style_run tz CSS_escape settings file styleContent w :
  file_style tz CSS_escape settings file styleContent w =
  match found_dates (name file) with
  | [] => (Ok styleContent, rest w)
  | dateStr :: _ =>
      match parseDate dateStr with
      | None =>
          (Ok (styleContent ++ file_rule (CSS_escape (path file))
                                         (color_pair settings Old))%string,
           rest w)
      | Some date =>
          (Ok (styleContent ++
               file_rule (CSS_escape (path file))
                 (color_pair settings (category_of (diff_days tz (now w) date) settings)))%string,
           tick (rest w))
      end
  end.
Proof.
  unfold file_style, bind. rewrite findDatesInText_run.
  destruct (found_dates (name file)) as [|d ds]; [reflexivity|].
  rewrite getHighlightColor_run. destruct (parseDate d); reflexivity.
Qed.

Lemma append_nil_r s : (s ++ EmptyString)%string = s.
Proof. induction s as [|c s IH]; cbn; [reflexivity | now rewrite IH]. Qed.

Lemma append_assoc s t u : (s ++ (t ++ u) = (s ++ t) ++ u)%string.
Proof. induction s as [|c s IH]; cbn; [reflexivity | now rewrite IH]. Qed.

Lemma for_files_ok tz CSS_escape settings files :
  forall styleContent w,
  exists css w',
    for_of files (fun file styleContent => file_style tz CSS_escape settings file styleContent)
           styleContent w = (Ok css, w') /\
    clock w' = clock w /\
    (reads w <= reads w' <= reads w + List.length files)%nat.
Proof.
  induction files as [|file files IH]; intros sc w; cbn [for_of].
  - exists sc, w. cbn [List.length]. repeat split; lia.
  - unfold bind. rewrite file_style_run.
    destruct (found_dates (name file)) as [|d ds]; [|destruct (parseDate d)];
      match goal with
      | |- context [for_of files _ ?sc1 ?w1] =>
          destruct (IH sc1 w1) as (css & w' & -> & Hc & Hr)
      end;
      exists css, w'; cbn [List.length];
      change (reads (tick (rest w))) with (S (reads w)) in *;
      change (reads (rest w)) with (reads w) in *;
      (split; [reflexivity|]); (split; [exact Hc|]); lia.
Qed.

Lemma for_files_join tz CSS_escape settings now_ files :
  forall styleContent w,
    (forall n, clock w n = now_) ->
    fst (for_of files
           (fun file styleContent => file_style tz CSS_escape settings file styleContent)
           styleContent w) =
    Ok (styleContent ++ join (map (file_rule_at tz CSS_escape settings now_) files))%string.
Proof.
  induction files as [|file files IH]; intros sc w Hconst; cbn [for_of map join fold_right].
  - cbn [ret fst]. now rewrite append_nil_r.
  - fold (join (map (file_rule_at tz CSS_escape settings now_) files)).
    unfold bind. rewrite file_style_run. unfold file_rule_at at 1. unfold now.
    rewrite Hconst.
    destruct (found_dates (name file)) as [|d ds]; [|destruct (parseDate d)].
    + rewrite IH by (intros n; apply Hconst). reflexivity.
    + rewrite IH by (intros n; apply Hconst). now rewrite append_assoc.
    + rewrite IH by (intros n; apply Hconst). now rewrite append_assoc.
Qed.

(** X10.  File-name mode always returns a style sheet: no input makes
    [updateFileStyles] throw (as content mode can), and it reads the clock
    at most once per file. *)
Theorem updateFileStyles_returns tz CSS_escape settings files w :
  exists css w',
    updateFileStyles tz CSS_escape settings files w = (Ok css, w') /\
    clock w' = clock w /\
    (reads w <= reads w' <= reads w + List.length files)%nat.
Proof.
  unfold updateFileStyles. destruct (negb (highlightFilenames settings)).
  - exists EmptyString, w. repeat split; lia.
  - apply for_files_ok.
Qed.

(** X11.  While the clock stands still, the style sheet is the rules of
    the files put together in the order of the vault, each file's rule
    depending on that file alone; so the sheet of two lists of files, one
    after the other, is the two sheets one after the other. *)
Theorem updateFileStyles_joins_rules tz CSS_escape settings now_ files1 files2 w :
  highlightFilenames settings = true ->
  (forall n, clock w n = now_) ->
  fst (updateFileStyles tz CSS_escape settings files1 w) =
    Ok (join (map (file_rule_at tz CSS_escape settings now_) files1)) /\
  fst (updateFileStyles tz CSS_escape settings (files1 ++ files2) w) =
    Ok (join (map (file_rule_at tz CSS_escape settings now_) files1) ++
        join (map (file_rule_at tz CSS_escape settings now_) files2))%string.
Proof.
  intros He Hc. unfold updateFileStyles. rewrite He. cbn [negb].
  rewrite !(for_files_join tz _ _ now_) by assumption. cbn [append].
  split; [reflexivity|]. f_equal.
  rewrite map_app. unfold join. rewrite fold_right_app.
  generalize (fold_right append EmptyString
                (map (file_rule_at tz CSS_escape settings now_) files2)).
  induction (map (file_rule_at tz CSS_escape settings now_) files1) as [|x l IH];
    intros t; cbn [fold_right append]; [reflexivity|].
  now rewrite IH, append_assoc.
Qed.

(** Three files on 2024-03-30, one of them without a date. *)
Lemma updateFileStyles_joins_rules_witness :
  let w := world0 (fun _ => midnight 2024 3 30) in
  let f1 := mkFile "2024-03-29 plan.md" "2024-03-29 plan.md" in
  let f2 := mkFile "readme.md" "readme.md" in
  let f3 := mkFile "01-02-2003.md" "01-02-2003.md" in
  (highlightFilenames DEFAULT_SETTINGS = true /\
   forall n, clock w n = midnight 2024 3 30) /\
  fst (updateFileStyles Etc_UTC (fun s => s) DEFAULT_SETTINGS ([f1] ++ [f2; f3]) w) =
    Ok (file_rule "2024-03-29 plan.md" (mkColors "#a4e7c3" "#000000") ++
        file_rule "01-02-2003.md" (mkColors "#e7a4a4" "#000000"))%string.
Proof.
  intros w f1 f2 f3.
  assert (forall n, clock w n = midnight 2024 3 30) as Hc by reflexivity.
  split; [split; [reflexivity | exact Hc]|].
  rewrite (proj2 (updateFileStyles_joins_rules Etc_UTC (fun s => s) DEFAULT_SETTINGS
                    (midnight 2024 3 30) [f1] [f2; f3] w eq_refl Hc)).
  vm_compute. reflexivity.
Defined.

(** ** The later revision *)

(** The refactoring kept the classifier: [DateService.parseDate],
    [DateService.generateTooltip] and [DateService.getHighlightColor] of
    the later revision return what [parseDate], [generateDateTooltip] and
    [getHighlightColor] return, for settings that say the same, and leave
    the same world. *)
Theorem revisions_agree tz dateStr settings w :
  Later.parseDate dateStr = parseDate dateStr /\
  Later.generateTooltip tz dateStr w = generateDateTooltip tz dateStr w /\
  Later.getHighlightColor tz dateStr settings w =
    getHighlightColor tz dateStr (first_settings settings) w.
Proof.
  split; [reflexivity|]. split.
  - unfold Later.generateTooltip, generateDateTooltip, Later.parseDate,
      Later.momentFormats, parseDate.
    destruct (parseDate_loop formats dateStr) as [date|]; [|reflexivity].
    unfold bind, moment_now.
    destruct (diff_days tz (clock w (reads w)) date) as [|[p|p|]|[p|p|]];
      reflexivity.
  - reflexivity.
Qed.

Lemma drop_append s t : drop (String.length s) (s ++ t)%string = t.
Proof. induction s as [|c s IH]; cbn; [reflexivity | exact IH]. Qed.

Lemma matches_at_append p dir text j :
  matches_at p text j -> matches_at p (dir ++ text)%string (String.length dir + j).
Proof.
  unfold matches_at. intros [Hj Hm]. split.
  - rewrite append_length. lia.
  - now rewrite <- drop_drop, drop_append.
Qed.

Lemma found_dates_nil text :
  found_dates text = [] <->
  forall regex, In regex DATE_FORMATS -> forall j, ~ matches_at (source regex) text j.
Proof.
  unfold found_dates. split.
  - intros H regex Hin.
    apply all_matches_nil; [rewrite (DATE_FORMATS_nonempty _ Hin); lia|].
    destruct (all_matches (source regex) text) as [|m ms] eqn:E; [reflexivity|].
    exfalso.
    assert (In (m0 m) (flat_map (fun regex => map m0 (all_matches (source regex) text))
                                DATE_FORMATS)) as Hc.
    { apply in_flat_map. exists regex. split; [assumption|]. rewrite E. now left. }
    rewrite H in Hc. destruct Hc.
  - intros H.
    assert (forall regex, In regex DATE_FORMATS -> all_matches (source regex) text = [])
      as Hnil.
    { intros regex Hin. apply all_matches_nil; [|now apply H].
      rewrite (DATE_FORMATS_nonempty _ Hin). lia. }
    unfold DATE_FORMATS in *. cbn [flat_map].
    rewrite !Hnil by (cbn; tauto). reflexivity.
Qed.

Lemma later_file_style_run tz CSS_escape settings file w :
  Later.file_style tz CSS_escape settings file w =
  match found_dates (path file) with
  | [] => (Ok EmptyString, rest w)
  | dateStr :: _ =>
      match parseDate dateStr with
      | None =>
          (Ok (Later.file_rule (CSS_escape (path file))
                 (color_pair (first_settings settings) Old)), rest w)
      | Some date =>
          (Ok (Later.file_rule (CSS_escape (path file))
                 (color_pair (first_settings settings)
                    (category_of (diff_days tz (now w) date) (first_settings settings)))),
           tick (rest w))
      end
  end.
Proof.
  unfold Later.file_style, bind. rewrite DateService_findDatesInText_run.
  destruct (found_dates (path file)) as [|d ds]; [reflexivity|].
  change (Later.getHighlightColor tz d settings (rest w))
    with (getHighlightColor tz d (first_settings settings) (rest w)).
  rewrite getHighlightColor_run. destruct (parseDate d); reflexivity.
Qed.

Lemma file_rule_nonempty safeFileName colors : file_rule safeFileName colors <> EmptyString.
Proof. unfold file_rule, LF. cbn [append]. discriminate. Qed.

Lemma later_file_rule_nonempty safeFileName colors :
  Later.file_rule safeFileName colors <> EmptyString.
Proof. unfold Later.file_rule, LF. cbn [append]. discriminate. Qed.

(** X12.  The later revision looks for the date in the path, the first
    one in the name.  For a file whose path ends with its name, whenever
    the first revision's callback appends a rule the later revision's
    callback returns one too: a file coloured before the refactoring is
    still coloured after it. *)
Theorem later_revision_still_colours tz CSS_escape settings1 settings2 file dir
    styleContent w1 w2 :
  path file = (dir ++ name file)%string ->
  fst (file_style tz CSS_escape settings1 file styleContent w1) <> Ok styleContent ->
  fst (Later.file_style tz CSS_escape settings2 file w2) <> Ok EmptyString.
Proof.
  intros Hpath H1. rewrite file_style_run in H1. rewrite later_file_style_run.
  destruct (found_dates (name file)) as [|d ds] eqn:E1; [now elim H1|].
  destruct (found_dates (path file)) as [|d2 ds2] eqn:E2.
  - exfalso.
    assert (found_dates (name file) <> []) as Hne by (rewrite E1; discriminate).
    apply Hne. apply found_dates_nil. intros regex Hin j Hat.
    rewrite Hpath in E2.
    apply (proj1 (found_dates_nil _) E2 regex Hin (String.length dir + j)%nat).
    now apply matches_at_append.
  - destruct (parseDate d2); cbn [fst]; intros [= H];
      now apply later_file_rule_nonempty in H.
Qed.

(** A dated note in a folder. *)
Lemma later_revision_still_colours_witness :
  let file := mkFile "2024-03-29 plan.md" "work/2024-03-29 plan.md" in
  let w := world0 (fun _ => midnight 2024 3 30) in
  (path file = ("work/" ++ name file)%string /\
   fst (file_style Etc_UTC (fun s => s) DEFAULT_SETTINGS file EmptyString w) <> Ok EmptyString) /\
  fst (Later.file_style Etc_UTC (fun s => s) Later.DEFAULT_SETTINGS file w) <> Ok EmptyString.
Proof.
  intros file w.
  assert (path file = ("work/" ++ name file)%string) as Hp by reflexivity.
  assert (fst (file_style Etc_UTC (fun s => s) DEFAULT_SETTINGS file EmptyString w)
          <> Ok EmptyString) as H1 by (vm_compute; discriminate).
  split; [auto|].
  exact (later_revision_still_colours Etc_UTC (fun s => s) DEFAULT_SETTINGS
           Later.DEFAULT_SETTINGS file "work/" EmptyString w w Hp H1).
Defined.

(** ** The settings tab *)

Example parseInt_examples :
  parseInt "14" = Num 14 /\ parseInt "  14 days" = Num 14 /\
  parseInt "14.9" = Num 14 /\ parseInt "-3" = Num (-3) /\
  parseInt "0x10" = Num 16 /\ parseInt EmptyString = NaN /\ parseInt "days" = NaN /\
  parseInt "+7" = Num 7 /\ parseInt "1e3" = Num 1.
Proof. repeat split. Qed.

Lemma of_uint_acc_val d acc :
  Z.pos (Pos.of_uint_acc d acc) = uint_val d (Z.pos acc).
Proof.
  revert acc; induction d; intros acc; cbn [Pos.of_uint_acc uint_val];
    try reflexivity; rewrite IHd; f_equal; lia.
Qed.

Lemma of_uint_val d : Z.of_N (Pos.of_uint d) = uint_val d 0.
Proof.
  induction d; cbn [Pos.of_uint uint_val]; try reflexivity;
    try exact IHd; cbn [Z.of_N]; rewrite of_uint_acc_val; reflexivity.
Qed.

Lemma uint_val_to_uint n : uint_val (N.to_uint n) 0 = Z.of_N n.
Proof.
  rewrite <- of_uint_val. change (Pos.of_uint (N.to_uint n)) with (N.of_uint (N.to_uint n)).
  now rewrite DecimalN.Unsigned.of_to.
Qed.

Lemma digit_is_plain c :
  is_digit c = true ->
  is_white_space c = false /\ Ascii.eqb c "-" = false /\ Ascii.eqb c "+" = false /\
  Ascii.eqb c "x" = false /\ Ascii.eqb c "X" = false.
Proof.
  destruct c as [[] [] [] [] [] [] [] []]; vm_compute; intros H;
    try discriminate H; repeat split.
Qed.

Lemma no_digit_in c : is_digit c = false -> digit_in 10 c = None.
Proof.
  destruct c as [[] [] [] [] [] [] [] []]; vm_compute; intros H;
    try discriminate H; reflexivity.
Qed.

Lemma parse_digits_stop rest acc :
  starts_with_digit rest = false -> parse_digits 10 rest acc = acc.
Proof.
  destruct rest as [|c rest]; cbn; [reflexivity|].
  intros H. now rewrite (no_digit_in c H).
Qed.

Lemma parse_digits_uint d rest a :
  starts_with_digit rest = false ->
  parse_digits 10 (NilEmpty.string_of_uint d ++ rest) (Some a) = Some (uint_val d a).
Proof.
  intros Hr. revert a; induction d; intros a;
    cbn [NilEmpty.string_of_uint append uint_val];
    [now apply parse_digits_stop | ..];
    cbn [parse_digits];
    match goal with
    | |- context [digit_in 10 ?c] =>
        let v := eval vm_compute in (digit_in 10 c) in
        change (digit_in 10 c) with v
    end; cbv iota beta; apply IHd.
Qed.

Lemma parse_digits_uint_first d rest :
  d <> Decimal.Nil -> starts_with_digit rest = false ->
  parse_digits 10 (NilEmpty.string_of_uint d ++ rest) None = Some (uint_val d 0).
Proof.
  intros Hd Hr. destruct d; [congruence | ..];
    cbn [NilEmpty.string_of_uint append uint_val parse_digits];
    match goal with
    | |- context [digit_in 10 ?c] =>
        let v := eval vm_compute in (digit_in 10 c) in
        change (digit_in 10 c) with v
    end; cbv iota beta; now apply parse_digits_uint.
Qed.

Lemma string_of_uint_digits d : all_digits (NilEmpty.string_of_uint d) = true.
Proof.
  unfold all_digits. induction d; cbn [NilEmpty.string_of_uint list_ascii_of_string forallb];
    [reflexivity | ..]; rewrite IHd; reflexivity.
Qed.

(** A positive number is written with digits only, not as "0". *)
Lemma number_to_string_positive n :
  0 < n ->
  exists d, d <> Decimal.Nil /\ number_to_string n = NilEmpty.string_of_uint d /\
            uint_val d 0 = n /\ number_to_string n <> "0".
Proof.
  intros Hn. exists (N.to_uint (Z.to_N n)).
  pose proof (N_to_uint_nonnil (Z.to_N n)) as Hd.
  split; [exact Hd|]. split; [|split].
  - unfold number_to_string, NilZero.string_of_uint.
    destruct (N.to_uint (Z.to_N n)); [congruence | reflexivity ..].
  - rewrite uint_val_to_uint. lia.
  - intros H. change "0" with (number_to_string 0) in H.
    apply number_to_string_inj in H; lia.
Qed.

(** [parseInt] on a text that starts with a decimal digit and not with
    [0x]. *)
Lemma parseInt_digit_first c s :
  is_digit c = true ->
  ~ (c = "0"%char /\ exists c2 s', s = String c2 s' /\ is_digit c2 = false) ->
  parseInt (String c s) =
  match parse_digits 10 (String c s) None with
  | None => NaN
  | Some v => Num v
  end.
Proof.
  intros Hd Hx. destruct (digit_is_plain c Hd) as (Hw & Hm & Hp & _).
  unfold parseInt. cbn [trim_start]. rewrite Hw, Hm, Hp. cbn [orb].
  assert (forall o, match o with Some v => Num (1 * v) | None => NaN end =
                    match o with Some v => Num v | None => NaN end) as Hone
    by (intros [v|]; [f_equal; lia | reflexivity]).
  destruct s as [|c2 s']; [apply Hone|].
  destruct (Ascii.eqb_spec c "0") as [->|Hc]; cbn [andb]; [|apply Hone].
  destruct (is_digit c2) eqn:D2.
  - destruct (digit_is_plain c2 D2) as (_ & _ & _ & -> & ->). apply Hone.
  - exfalso. apply Hx. split; [reflexivity|]. now exists c2, s'.
Qed.

(** Digits of a positive number, then anything that is not a digit. *)
Lemma parseInt_number n rest :
  0 < n -> starts_with_digit rest = false ->
  parseInt (number_to_string n ++ rest) = Num n.
Proof.
  intros Hn Hr.
  destruct (number_to_string_positive n Hn) as (d & Hd & Hs & Hv & Hz).
  pose proof (string_of_uint_digits d) as Hall.
  pose proof (parse_digits_uint_first d rest Hd Hr) as Hp.
  rewrite Hs in *. clear Hs.
  destruct (NilEmpty.string_of_uint d) as [|c t] eqn:E.
  - destruct d; [congruence | discriminate E ..].
  - unfold all_digits in Hall. cbn [list_ascii_of_string forallb] in Hall.
    apply andb_prop in Hall. destruct Hall as [Hc Ht].
    cbn [append] in *. rewrite parseInt_digit_first.
    + rewrite Hp. now rewrite Hv.
    + exact Hc.
    + intros (-> & c2 & s' & Hs' & Hc2).
      destruct t as [|c3 t'].
      * now apply Hz.
      * cbn [append] in Hs'. inversion Hs'; subst.
        cbn [list_ascii_of_string forallb] in Ht.
        apply andb_prop in Ht. destruct Ht as [Hc3 _]. congruence.
Qed.

Lemma saveSettings_ok tz CSS_escape files settings w :
  exists css w', saveSettings tz CSS_escape files settings w = (Ok css, w').
Proof.
  unfold saveSettings, updateFileStyles. destruct (negb (highlightFilenames settings)).
  - eexists _, _. reflexivity.
  - destruct (for_files_ok tz CSS_escape settings files EmptyString w) as (css & w' & H & _).
    now exists css, w'.
Qed.

(** X13.  What the two threshold fields keep.  The field of the
    intermediate period never leaves the thresholds the wrong way round:
    it stores a number only when it is above [recentDays], and otherwise
    changes nothing.  The field of the recent period stores a number only
    when it is positive, and otherwise changes nothing; it does not look
    at [intermediateDays].  Neither handler throws, and neither touches
    the other threshold. *)
Theorem threshold_fields_guard tz CSS_escape files value settings w :
  (exists s' o w',
     onChange_intermediateDays tz CSS_escape files value settings w = (Ok (s', o), w') /\
     recentDays s' = recentDays settings /\
     ((s' = settings /\ o = None) \/
      (recentDays s' < intermediateDays s' /\ o <> None))) /\
  (exists s' o w',
     onChange_recentDays tz CSS_escape files value settings w = (Ok (s', o), w') /\
     intermediateDays s' = intermediateDays settings /\
     ((s' = settings /\ o = None) \/ (0 < recentDays s' /\ o <> None))).
Proof.
  split.
  - unfold onChange_intermediateDays. destruct (parseInt value) as [|n].
    + exists settings, None, w. repeat split; auto.
    + destruct (Z.gtb_spec n (recentDays settings)) as [Hgt|Hle].
      * destruct (saveSettings_ok tz CSS_escape files (set_intermediateDays n settings) w)
          as (css & w' & H).
        unfold bind. rewrite H.
        eexists _, _, _. split; [reflexivity|]. split; [reflexivity|].
        right. cbn. split; [lia | discriminate].
      * exists settings, None, w. repeat split; auto.
  - unfold onChange_recentDays. destruct (parseInt value) as [|n].
    + exists settings, None, w. repeat split; auto.
    + destruct (Z.gtb_spec n 0) as [Hgt|Hle].
      * destruct (saveSettings_ok tz CSS_escape files (set_recentDays n settings) w)
          as (css & w' & H).
        unfold bind. rewrite H.
        eexists _, _, _. split; [reflexivity|]. split; [reflexivity|].
        right. cbn. split; [lia | discriminate].
      * exists settings, None, w. repeat split; auto.
Qed.

Lemma no_intermediate tz settings s w :
  intermediateDays settings <= recentDays settings ->
  fst (getHighlightColor tz s settings w) = Ok (color_pair settings Recent) \/
  fst (getHighlightColor tz s settings w) = Ok (color_pair settings Old).
Proof.
  intros H. rewrite getHighlightColor_run.
  destruct (parseDate s) as [d|]; cbn [fst]; [|now right].
  unfold category_of.
  destruct (Z.leb_spec (diff_days tz (now w) d) (recentDays settings)); [now left|].
  destruct (Z.leb_spec (diff_days tz (now w) d) (intermediateDays settings)); [lia|].
  now right.
Qed.

(** X14.  The field of the recent period takes the leading number of what
    is typed and ignores the rest: for a positive number [n] (below
    [10^15], where the number read is exact), its decimal digits followed
    by any text that does not start with a digit set [recentDays] to [n]
    and save the settings.  This also happens when [n] is not below
    [intermediateDays]; from then on no string is given the intermediate
    colour. *)
Theorem recent_field_takes_leading_number tz CSS_escape files n rest settings w :
  0 < n < 10 ^ 15 ->
  starts_with_digit rest = false ->
  (exists css w',
     onChange_recentDays tz CSS_escape files (number_to_string n ++ rest) settings w =
       (Ok (set_recentDays n settings, Some css), w')) /\
  (intermediateDays settings <= n ->
   forall s w2,
     fst (getHighlightColor tz s (set_recentDays n settings) w2) =
       Ok (color_pair (set_recentDays n settings) Recent) \/
     fst (getHighlightColor tz s (set_recentDays n settings) w2) =
       Ok (color_pair (set_recentDays n settings) Old)).
Proof.
  intros Hn Hr. split.
  - unfold onChange_recentDays. rewrite parseInt_number by (assumption || lia).
    destruct (Z.gtb_spec n 0) as [Hgt|Hle]; [|lia].
    destruct (saveSettings_ok tz CSS_escape files (set_recentDays n settings) w)
      as (css & w' & H).
    unfold bind. rewrite H. now exists css, w'.
  - intros Hi s w2. apply no_intermediate. cbn. exact Hi.
Qed.

(** "45 days" typed into the field, with the default settings. *)
Lemma recent_field_takes_leading_number_witness :
  let w := world0 (fun _ => midnight 2024 3 30) in
  (0 < 45 < 10 ^ 15 /\ starts_with_digit " days" = false) /\
  (number_to_string 45 ++ " days")%string = "45 days" /\
  exists css w',
    onChange_recentDays Etc_UTC (fun s => s) [] "45 days" DEFAULT_SETTINGS w =
      (Ok (set_recentDays 45 DEFAULT_SETTINGS, Some css), w').
Proof.
  intros w.
  assert (0 < 45 < 10 ^ 15) as Hn by (split; reflexivity).
  split; [split; [exact Hn | reflexivity]|]. split; [reflexivity|].
  exact (proj1 (recent_field_takes_leading_number Etc_UTC (fun s => s) [] 45 " days"
                  DEFAULT_SETTINGS w Hn eq_refl)).
Defined.

Lemma set_recentDays_same s : set_recentDays (recentDays s) s = s.
Proof. destruct s; reflexivity. Qed.

Lemma set_intermediateDays_same s : set_intermediateDays (intermediateDays s) s = s.
Proof. destruct s; reflexivity. Qed.

(** X15.  Typing back what a threshold field shows changes nothing: the
    fields are filled with [recentDays.toString()] and
    [intermediateDays.toString()], and for thresholds in the right order
    ([0 < recentDays < intermediateDays], both below [10^15]) each handler
    reads its own text back as the number stored, accepts it and saves
    the same settings. *)
Theorem threshold_fields_round_trip tz CSS_escape files settings w :
  0 < recentDays settings ->
  recentDays settings < intermediateDays settings ->
  intermediateDays settings < 10 ^ 15 ->
  (exists css w',
     onChange_recentDays tz CSS_escape files (number_to_string (recentDays settings))
       settings w = (Ok (settings, Some css), w')) /\
  (exists css w',
     onChange_intermediateDays tz CSS_escape files
       (number_to_string (intermediateDays settings)) settings w =
       (Ok (settings, Some css), w')).
Proof.
  intros H0 H1 H2. split.
  - unfold onChange_recentDays.
    rewrite <- (append_nil_r (number_to_string (recentDays settings))).
    rewrite parseInt_number by (reflexivity || lia).
    destruct (Z.gtb_spec (recentDays settings) 0) as [Hgt|Hle]; [|lia].
    rewrite set_recentDays_same.
    destruct (saveSettings_ok tz CSS_escape files settings w) as (css & w' & H).
    unfold bind. rewrite H. now exists css, w'.
  - unfold onChange_intermediateDays.
    rewrite <- (append_nil_r (number_to_string (intermediateDays settings))).
    rewrite parseInt_number by (reflexivity || lia).
    destruct (Z.gtb_spec (intermediateDays settings) (recentDays settings)) as [Hgt|Hle]; [|lia].
    rewrite set_intermediateDays_same.
    destruct (saveSettings_ok tz CSS_escape files settings w) as (css & w' & H).
    unfold bind. rewrite H. now exists css, w'.
Qed.

(** The default thresholds, 14 and 30. *)
Lemma threshold_fields_round_trip_witness :
  let w := world0 (fun _ => midnight 2024 3 30) in
  (0 < recentDays DEFAULT_SETTINGS /\
   recentDays DEFAULT_SETTINGS < intermediateDays DEFAULT_SETTINGS /\
   intermediateDays DEFAULT_SETTINGS < 10 ^ 15) /\
  number_to_string (recentDays DEFAULT_SETTINGS) = "14" /\
  exists css w',
    onChange_recentDays Etc_UTC (fun s => s) [] "14" DEFAULT_SETTINGS w =
      (Ok (DEFAULT_SETTINGS, Some css), w').
Proof.
  intros w.
  assert (0 < recentDays DEFAULT_SETTINGS) as H0 by reflexivity.
  assert (recentDays DEFAULT_SETTINGS < intermediateDays DEFAULT_SETTINGS) as H1
    by reflexivity.
  assert (intermediateDays DEFAULT_SETTINGS < 10 ^ 15) as H2 by reflexivity.
  split; [auto|]. split; [reflexivity|].
  exact (proj1 (threshold_fields_round_trip Etc_UTC (fun s => s) [] DEFAULT_SETTINGS w H0 H1 H2)).
Defined.

(** ** What a parsed date is *)

Lemma digit_value_bounds c : is_digit c = true -> 0 <= digit_value c <= 9.
Proof.
  unfold is_digit, digit_value. intros H. apply andb_prop in H.
  destruct H as [H1 H2]. apply Nat.leb_le in H1, H2. lia.
Qed.

Lemma toInt_acc_digits n s s' acc :
  match_digits n s = Some s' ->
  exists r, toInt_acc (take n s) acc = acc * 10 ^ Z.of_nat n + r /\
            0 <= r < 10 ^ Z.of_nat n.
Proof.
  revert s acc; induction n as [|n IH]; intros s acc H.
  - rewrite take_0. exists 0. cbn. lia.
  - cbn [match_digits] in H. destruct s as [|c s]; [discriminate|].
    destruct (is_digit c) eqn:D; [|discriminate].
    rewrite take_S. cbn [toInt_acc].
    destruct (IH s (10 * acc + digit_value c) H) as (r & -> & Hr).
    pose proof (digit_value_bounds c D) as Hd.
    rewrite Nat2Z.inj_succ, Z.pow_succ_r by lia.
    exists (digit_value c * 10 ^ Z.of_nat n + r). split; [ring|]. nia.
Qed.

Lemma parse_tokens_year ts s a a' :
  parse_tokens ts s a = (a', true) ->
  0 <= YEAR a <= 9999 -> 0 <= YEAR a' <= 9999.
Proof.
  revert s a; induction ts as [|t ts IH]; intros s a H Ha.
  - cbn [parse_tokens] in H. inversion H; subst. exact Ha.
  - destruct t; cbn [parse_tokens] in H.
    + destruct (match_digits 4 s) as [s'|] eqn:E; [|inversion H].
      apply (IH _ _ H). cbn [YEAR].
      destruct (toInt_acc_digits 4 s s' 0 E) as (r & Hr & Hb).
      unfold toInt. rewrite Hr. change (10 ^ Z.of_nat 4) with 10000 in *. lia.
    + destruct (match_digits 2 s) as [s'|]; [|inversion H]. apply (IH _ _ H). exact Ha.
    + destruct (match_digits 2 s) as [s'|]; [|inversion H]. apply (IH _ _ H). exact Ha.
    + destruct s as [|c' s]; [inversion H|].
      destruct (Ascii.eqb c c'); [|inversion H]. apply (IH _ _ H). exact Ha.
Qed.

Lemma daysInMonth_bounds year month : 28 <= daysInMonth year month <= 31.
Proof.
  unfold daysInMonth.
  destruct (month mod 12 =? 1); [destruct (isLeapYear _); lia|].
  pose proof (Z.mod_pos_bound ((month mod 12) mod 7) 2 ltac:(lia)). lia.
Qed.

(** X16.  What [parseDate] returns is a date of the calendar: the string
    has ten code units, the year is between 0 and 9999, the month between
    January and December, and the day exists in that month of that year
    (at most 31; 29 February only in a leap year). *)
Theorem parsed_date_is_a_calendar_date s m :
  parseDate s = Some m ->
  String.length s = 10%nat /\
  0 <= YEAR (_a m) <= 9999 /\
  0 <= MONTH (_a m) <= 11 /\
  1 <= DATE (_a m) <= daysInMonth (YEAR (_a m)) (MONTH (_a m)) /\
  DATE (_a m) <= 31 /\
  (MONTH (_a m) = 1 -> DATE (_a m) = 29 -> isLeapYear (YEAR (_a m)) = true).
Proof.
  intros H. unfold parseDate in H.
  pose proof (parseDate_loop_spec formats s) as Hs. rewrite H in Hs.
  destruct Hs as (i & f & Hi & Hm & Hv & _).
  destruct (nth_DATE_FORMATS_formats _ _ Hi) as [regex Hr].
  assert (isValid (moment s f) = true) as Hv' by (now rewrite <- Hm).
  destruct (moment_valid_matches _ _ _ _ Hi Hr Hv') as [_ Hlen].
  destruct (moment_valid_exact _ _ Hv') as (a & Hp & Ho).
  assert (_a m = a) as Ha.
  { subst m. unfold moment. now rewrite Hp. }
  rewrite Ha.
  pose proof (parse_tokens_year _ _ _ _ Hp ltac:(cbn; lia)) as Hy.
  unfold overflow in Ho.
  apply orb_false_elim in Ho. destruct Ho as [Ho H4].
  apply orb_false_elim in Ho. destruct Ho as [Ho H3].
  apply orb_false_elim in Ho. destruct Ho as [H1 H2].
  apply Z.ltb_ge in H1, H3. rewrite Z.gtb_ltb in H2, H4.
  apply Z.ltb_ge in H2, H4.
  pose proof (daysInMonth_bounds (YEAR a) (MONTH a)) as Hb.
  repeat split; try lia.
  intros Hfeb H29. unfold daysInMonth in H4. rewrite Hfeb in H4.
  change (1 mod 12) with 1 in H4. change (1 =? 1) with true in H4.
  replace (YEAR a + (1 - 1) / 12) with (YEAR a) in H4 by (cbn; lia).
  destruct (isLeapYear (YEAR a)); [reflexivity | lia].
Qed.

(** 29 February of a leap year. *)
Lemma parsed_date_is_a_calendar_date_witness :
  let m := moment "2024-02-29" [YYYY; Sep "-"; MM; Sep "-"; DD] in
  parseDate "2024-02-29" = Some m /\
  _a m = mkDateArray 2024 1 29 /\
  isLeapYear 2024 = true.
Proof.
  intros m.
  assert (parseDate "2024-02-29" = Some m) as H by reflexivity.
  split; [exact H|]. split; [reflexivity|].
  exact (proj2 (proj2 (proj2 (proj2 (proj2
           (parsed_date_is_a_calendar_date "2024-02-29" m H))))) eq_refl eq_refl).
Defined.

(** ** The regular expressions are shared by the two modes *)

Lemma for_files_rest tz CSS_escape settings files :
  forall styleContent w,
    files <> [] \/ at_rest w ->
    at_rest (snd (for_of files
                    (fun file styleContent =>
                       file_style tz CSS_escape settings file styleContent)
                    styleContent w)).
Proof.
  induction files as [|file files IH]; intros sc w H; cbn [for_of].
  - destruct H as [H|H]; [congruence | exact H].
  - unfold bind. rewrite file_style_run.
    destruct (found_dates (name file)) as [|d ds]; [|destruct (parseDate d)];
      apply IH; right; reflexivity.
Qed.

(** X17.  File-name mode puts the shared regular expressions back at
    rest: after [updateFileStyles] has gone through at least one file, a
    content pass behaves as from rest, whatever an earlier pass that threw
    had left in [lastIndex]. *)
Theorem updateFileStyles_resets_scans tz CSS_escape settings files view w :
  highlightFilenames settings = true ->
  files <> [] ->
  at_rest (snd (updateFileStyles tz CSS_escape settings files w)) /\
  forall w0,
    at_rest w0 -> (forall n, clock w0 n = clock w 0%nat) ->
    (forall n, clock w n = clock w 0%nat) ->
    fst (buildDecorations tz settings view
           (snd (updateFileStyles tz CSS_escape settings files w))) =
    fst (buildDecorations tz settings view w0).
Proof.
  intros He Hf. unfold updateFileStyles. rewrite He. cbn [negb].
  assert (at_rest (snd (for_of files
                          (fun file styleContent =>
                             file_style tz CSS_escape settings file styleContent)
                          EmptyString w))) as Hr
    by (apply for_files_rest; now left).
  split; [exact Hr|].
  intros w0 Hr0 Hc0 Hc.
  destruct (for_files_ok tz CSS_escape settings files EmptyString w)
    as (css & w' & E & Hclock & _).
  rewrite E in *. cbn [snd] in *.
  apply (stable_buildDecorations tz (clock w 0%nat)).
  split; [unfold at_rest in *; congruence|].
  split; [intros n; rewrite Hclock; apply Hc | exact Hc0].
Qed.

(** After the pass of C1 has thrown, one file name is enough. *)
Lemma updateFileStyles_resets_scans_witness :
  let view := mkView "03/30/2024 2024-03-30" [(0, 21)%nat] in
  let w := snd (buildDecorations Etc_UTC DEFAULT_SETTINGS view
                  (world0 (fun _ => midnight 2024 3 30))) in
  let files := [mkFile "notes.md" "notes.md"] in
  (highlightFilenames DEFAULT_SETTINGS = true /\ files <> [] /\
   lastIndex w = mkLI 0 10 0 0) /\
  at_rest (snd (updateFileStyles Etc_UTC (fun s => s) DEFAULT_SETTINGS files w)).
Proof.
  intros view w files.
  assert (files <> []) as Hf by discriminate.
  split; [split; [reflexivity | split; [exact Hf | vm_compute; reflexivity]]|].
  exact (proj1 (updateFileStyles_resets_scans Etc_UTC (fun s => s) DEFAULT_SETTINGS files
                  view w eq_refl Hf)).
Defined.
